(** * ToDoList "Musei di Bologna": the task store of the two scripts

    A shallow embedding of the museum to-do list, first of the script that
    keeps the tasks in an array (array-script.js), then of the one that
    keeps them in a [Map], and the proofs of the properties the
    specification states about them.  The properties are proved of the
    array script; the last part shows that the Map script does on its map
    what the array script does on the tasks of the map.

    Modelling conventions.
    - A JavaScript string whose code units all lie below 256 is a [string],
      one [ascii] per code unit.  On that range [trim], [toLowerCase] and
      [includes] below are the built-ins of the language.
    - The ids and the counter [window.nextId] are JavaScript numbers that
      only ever hold integers obtained by adding one; they are values of
      [Z].  That arithmetic is exact in a double below 2^53, a range no
      session leaves.
    - [prompt] answers are [option string] ([None] is the [null] of a
      cancelled prompt), [confirm] answers are [bool], and the message an
      operation passes to [alert] is a value of [Alert].
    - [Task.createdAt] is written by the constructor from the clock and is
      read by no function of the script; the record leaves it out.
    - The page (the [innerHTML] a rendering writes, the input fields that
      are cleared) is not part of the store; [render] is the list of tasks
      it computes before generating markup. *)

From Stdlib Require Import ZArith List String Ascii Bool Lia.
From Stdlib Require Import Permutation Sorted.
Import ListNotations.

Local Open Scope string_scope.
Local Open Scope list_scope.
Local Open Scope Z_scope.

(* ================================================================== *)
(** ** Strings of the host language *)
(* ================================================================== *)

Module JsString.

Definition codeUnit (c : ascii) : N := N_of_ascii c.

(** WhiteSpace and LineTerminator code units below 256: TAB, LF, VT, FF,
    CR, SP and NBSP. *)
Definition isWhiteSpace (c : ascii) : bool :=
  let n := codeUnit c in
  ((9 <=? n) && (n <=? 13) || (n =? 32) || (n =? 160))%N.

Fixpoint trimStart (s : string) : string :=
  match s with
  | EmptyString => EmptyString
  | String c r => if isWhiteSpace c then trimStart r else s
  end.

Fixpoint trimEnd (s : string) : string :=
  match s with
  | EmptyString => EmptyString
  | String c r =>
      match trimEnd r with
      | EmptyString => if isWhiteSpace c then EmptyString else String c EmptyString
      | r' => String c r'
      end
  end.

(** [String.prototype.trim] *)
Definition trim (s : string) : string := trimEnd (trimStart s).

(** Upper-case letters below 256: A-Z, and U+00C0..U+00DE without the
    multiplication sign U+00D7; each is 32 below its lower-case form. *)
Definition isUpper (c : ascii) : bool :=
  let n := codeUnit c in
  ((65 <=? n) && (n <=? 90) || (192 <=? n) && (n <=? 222) && negb (n =? 215))%N.

Definition lowerChar (c : ascii) : ascii :=
  if isUpper c then ascii_of_N (codeUnit c + 32) else c.

(** [String.prototype.toLowerCase] *)
Fixpoint toLowerCase (s : string) : string :=
  match s with
  | EmptyString => EmptyString
  | String c r => String (lowerChar c) (toLowerCase r)
  end.

(** [String.prototype.includes]: [sub] starts at some position of [s]. *)
Fixpoint includes (s sub : string) : bool :=
  String.prefix sub s ||
  match s with
  | EmptyString => false
  | String _ r => includes r sub
  end.

(** Truthiness of a string: every string but the empty one. *)
Definition truthy (s : string) : bool := negb (String.eqb s "").

(** Truthiness of a value that is a string, [null] or [undefined]. *)
Definition truthy_opt (v : option string) : bool :=
  match v with
  | Some s => truthy s
  | None => false
  end.

Definition isDigit (c : ascii) : bool :=
  let n := codeUnit c in ((48 <=? n) && (n <=? 57))%N.

Definition isDash (c : ascii) : bool := Ascii.eqb c "-"%char.

End JsString.

Import JsString.

(* ================================================================== *)
(** ** The data model *)
(* ================================================================== *)

(** [class Task]; the constructor's default for [completed] is [false]. *)
Record Task : Type := new_Task {
  id : Z;
  name : string;
  date : string;
  completed : bool
}.

Definition set_name (t : Task) (n : string) : Task :=
  new_Task (id t) n (date t) (completed t).

Definition set_date (t : Task) (d : string) : Task :=
  new_Task (id t) (name t) d (completed t).

Definition set_completed (t : Task) (b : bool) : Task :=
  new_Task (id t) (name t) (date t) b.

(** One object of [initialMuseums]. *)
Module Museum.
Record t : Type := make { name : string; date : string; completed : bool }.
End Museum.

(** What an operation passes to [alert]. *)
Inductive Alert : Type :=
| EmptyName          (* 'Inserisci il nome del museo!' *)
| MissingDate        (* 'Seleziona una data!' *)
| InvalidDateFormat  (* 'Formato data non valido! Usa YYYY-MM-DD' *)
| NoMuseums          (* 'Non ci sono musei nella lista!' *)
| NothingToClear     (* 'Non ci sono musei visitati da rimuovere!' *)
| EmptyStore.        (* 'La lista e gia vuota!' *)

(** [array.map] with the index as second argument of the callback. *)
Fixpoint mapi_from {A B : Type} (f : A -> Z -> B) (index : Z) (l : list A) : list B :=
  match l with
  | [] => []
  | x :: r => f x index :: mapi_from f (index + 1) r
  end.

Definition mapi {A B : Type} (f : A -> Z -> B) (l : list A) : list B :=
  mapi_from f 0 l.

(** [array.forEach] with the index as second argument of the callback;
    [acc] is the state the callback works on. *)
Fixpoint forEach_from {A S : Type} (f : S -> A -> Z -> S) (index : Z) (l : list A)
         (acc : S) : S :=
  match l with
  | [] => acc
  | x :: r => forEach_from f (index + 1) r (f acc x index)
  end.

Definition forEach {A S : Type} (f : S -> A -> Z -> S) (l : list A) (acc : S) : S :=
  forEach_from f 0 l acc.

(** [Math.max(x, ...xs)] on at least one argument. *)
Definition Math_max (x : Z) (xs : list Z) : Z := fold_left Z.max xs x.

(** [array.find]: the first element the predicate holds of. *)
Definition find_task (taskId : Z) (l : list Task) : option Task :=
  find (fun t => id t =? taskId) l.

(** An assignment through the reference [find] returned: the first task
    with that id is replaced in place. *)
Fixpoint assign (taskId : Z) (t' : Task) (l : list Task) : list Task :=
  match l with
  | [] => []
  | t :: r => if id t =? taskId then t' :: r else t :: assign taskId t' r
  end.

(** [/^\d{4}-\d{2}-\d{2}$/.test]: exactly ten code units, digits but for a
    dash in the fifth and in the eighth place. *)
Definition dateRegex_test (s : string) : bool :=
  match list_ascii_of_string s with
  | [y1; y2; y3; y4; s1; m1; m2; s2; d1; d2] =>
      isDigit y1 && isDigit y2 && isDigit y3 && isDigit y4 && isDash s1 &&
      isDigit m1 && isDigit m2 && isDash s2 && isDigit d1 && isDigit d2
  | _ => false
  end.

(* ================================================================== *)
(** ** array-script.js *)
(* ================================================================== *)

(** The globals [tasks] and [window.nextId]. *)
Record Store : Type := mkStore {
  tasks : list Task;
  nextId : Z
}.

Definition initialMuseums : list Museum.t := [
  Museum.make "Museo Civico Archeologico" "2024-02-15" false;
  Museum.make "Pinacoteca Nazionale di Bologna" "2024-02-20" true;
  Museum.make "Museo della Storia di Bologna" "2024-03-01" false;
  Museum.make "MAMbo - Museo d'Arte Moderna di Bologna" "2024-03-10" false;
  Museum.make "Museo Internazionale della Musica" "2024-03-15" true;
  Museum.make "Museo Civico Medievale" "2024-03-20" false;
  Museum.make "Museo di Palazzo Poggi" "2024-04-01" false;
  Museum.make "Museo della Tappezzeria" "2024-04-05" false
].

Definition updateNextId (s : Store) : Store :=
  match map id (tasks s) with
  | [] => mkStore (tasks s) 1
  | x :: xs => mkStore (tasks s) (Math_max x xs + 1)
  end.

(** [init] replaces [tasks] whatever it held and recomputes the counter. *)
Definition init (s : Store) : Store :=
  updateNextId
    (mkStore
       (mapi (fun museum index =>
                new_Task (index + 1) (Museum.name museum) (Museum.date museum)
                         (Museum.completed museum))
             initialMuseums)
       (nextId s)).

(** The three numbers [updateStats] writes into the dashboard. *)
Record Stats : Type := mkStats {
  totalCount : Z;
  completedCount : Z;
  pendingCount : Z
}.

Definition updateStats (s : Store) : Stats :=
  let totalCount := Z.of_nat (List.length (tasks s)) in
  let completedCount := Z.of_nat (List.length (filter (fun task => completed task) (tasks s))) in
  let pendingCount := totalCount - completedCount in
  mkStats totalCount completedCount pendingCount.

(** The store before [DOMContentLoaded]: [tasks = []]; the counter is not
    set yet and [init] overwrites it. *)
Definition empty_store : Store := mkStore [] 1.

Definition seed_store : Store := init empty_store.

(** An operation leaves a store and at most one [alert]. *)
Definition Outcome : Type := (Store * option Alert)%type.

(** [addTask(name, date)]; an absent [date] is [None].  The test [!date]
    has sent every [None] away before the task is built. *)
Definition addTask (name : string) (date : option string) (s : Store) : Outcome :=
  if negb (truthy (trim name)) then (s, Some EmptyName)
  else if negb (truthy_opt date) then (s, Some MissingDate)
  else
    match date with
    | None => (s, Some MissingDate)
    | Some date =>
        let newTask := new_Task (nextId s) (trim name) date false in
        (mkStore (tasks s ++ [newTask]) (nextId s + 1), None)
    end.

Definition toggleDone (taskId : Z) (s : Store) : Store :=
  match find_task taskId (tasks s) with
  | Some task =>
      mkStore (assign taskId (set_completed task (negb (completed task))) (tasks s))
              (nextId s)
  | None => s
  end.

(** [removeTask(taskId)]; [confirmed] is the answer of [confirm]. *)
Definition removeTask (taskId : Z) (confirmed : bool) (s : Store) : Store :=
  if confirmed
  then mkStore (filter (fun t => negb (id t =? taskId)) (tasks s)) (nextId s)
  else s.

(** The first half of [editTask]: the answer to the name prompt. *)
Definition editName (newName : option string) (task : Task) : Task :=
  match newName with
  | Some newName =>
      if truthy newName && truthy (trim newName)
         && negb (String.eqb (trim newName) (name task))
      then set_name task (trim newName)
      else task
  | None => task
  end.

(** The second half of [editTask]: the answer to the date prompt. *)
Definition editDate (newDate : option string) (task : Task) : Task * option Alert :=
  match newDate with
  | Some newDate =>
      if truthy newDate && negb (String.eqb newDate (date task))
      then if dateRegex_test newDate
           then (set_date task newDate, None)
           else (task, Some InvalidDateFormat)
      else (task, None)
  | None => (task, None)
  end.

(** [editTask(taskId)] with the answers to its two prompts. *)
Definition editTask (taskId : Z) (newName newDate : option string) (s : Store) : Outcome :=
  match find_task taskId (tasks s) with
  | None => (s, None)
  | Some task =>
      let (task', alert) := editDate newDate (editName newName task) in
      (mkStore (assign taskId task' (tasks s)) (nextId s), alert)
  end.

Definition markAllAsCompleted (confirmed : bool) (s : Store) : Outcome :=
  match tasks s with
  | [] => (s, Some NoMuseums)
  | _ =>
      if confirmed
      then (mkStore (map (fun task => set_completed task true) (tasks s)) (nextId s), None)
      else (s, None)
  end.

Definition clearCompleted (confirmed : bool) (s : Store) : Outcome :=
  let completedTasks := filter (fun task => completed task) (tasks s) in
  match completedTasks with
  | [] => (s, Some NothingToClear)
  | _ =>
      if confirmed
      then (mkStore (filter (fun task => negb (completed task)) (tasks s)) (nextId s), None)
      else (s, None)
  end.

Definition clearAll (confirmed : bool) (s : Store) : Outcome :=
  match tasks s with
  | [] => (s, Some EmptyStore)
  | _ => if confirmed then (mkStore [] 1, None) else (s, None)
  end.

(** *** Rendering *)

(** [Array.prototype.sort] is stable, and a comparison that yields [NaN]
    counts as zero.  The insertion below puts [x], which came first in the
    array, before the first element it is not greater than.  For a
    consistent comparison every stable sort returns this list; for another
    one the language leaves the order to the engine, and the result is a
    rearrangement of the array in any case. *)
Fixpoint sort_insert (comparefn : Task -> Task -> option Z) (x : Task) (l : list Task)
  : list Task :=
  match l with
  | [] => [x]
  | y :: r =>
      let v := match comparefn x y with Some v => v | None => 0 end in
      if 0 <? v then y :: sort_insert comparefn x r else x :: l
  end.

Fixpoint sort (comparefn : Task -> Task -> option Z) (l : list Task) : list Task :=
  match l with
  | [] => []
  | x :: r => sort_insert comparefn x (sort comparefn r)
  end.

(** Subtraction of two numbers of which either may be [NaN]. *)
Definition number_sub (a b : option Z) : option Z :=
  match a, b with
  | Some a, Some b => Some (a - b)
  | _, _ => None
  end.

Section Render.

(** Two functions of the host: the collation of [localeCompare] in the
    locale of the browser, and the time value of [new Date(string)],
    [None] for an invalid date. *)
Variable localeCompare : string -> string -> Z.
Variable Date_valueOf : string -> option Z.

Definition compareTasks (sortBy : string) (a b : Task) : option Z :=
  if String.eqb sortBy "name" then Some (localeCompare (name a) (name b))
  else if String.eqb sortBy "date"
       then number_sub (Date_valueOf (date a)) (Date_valueOf (date b))
  else if String.eqb sortBy "status"
       then Some (Z.b2z (completed a) - Z.b2z (completed b))
  else Some 0.

Definition matchesStatus (statusFilter : string) (task : Task) : bool :=
  String.eqb statusFilter "all" ||
  (String.eqb statusFilter "pending" && negb (completed task)) ||
  (String.eqb statusFilter "completed" && completed task).

Definition matchesSearch (searchTerm : string) (task : Task) : bool :=
  includes (toLowerCase (name task)) searchTerm.

(** [render()] up to the list it turns into markup; [statusFilter],
    [searchInput] and [sortBy] are the values of the three controls. *)
Definition render (statusFilter searchInput sortBy : string) (s : Store) : list Task :=
  let searchTerm := toLowerCase searchInput in
  let filteredTasks :=
    filter (fun task => matchesStatus statusFilter task && matchesSearch searchTerm task)
           (tasks s) in
  sort (compareTasks sortBy) filteredTasks.

End Render.

(** *** Sessions *)

Inductive Action : Type :=
| Init
| AddTask (name : string) (date : option string)
| ToggleDone (taskId : Z)
| RemoveTask (taskId : Z) (confirmed : bool)
| EditTask (taskId : Z) (newName newDate : option string)
| MarkAllAsCompleted (confirmed : bool)
| ClearCompleted (confirmed : bool)
| ClearAll (confirmed : bool).

Definition step (s : Store) (a : Action) : Store :=
  match a with
  | Init => init s
  | AddTask name date => fst (addTask name date s)
  | ToggleDone taskId => toggleDone taskId s
  | RemoveTask taskId confirmed => removeTask taskId confirmed s
  | EditTask taskId newName newDate => fst (editTask taskId newName newDate s)
  | MarkAllAsCompleted confirmed => fst (markAllAsCompleted confirmed s)
  | ClearCompleted confirmed => fst (clearCompleted confirmed s)
  | ClearAll confirmed => fst (clearAll confirmed s)
  end.

Definition run (actions : list Action) (s : Store) : Store :=
  fold_left step actions s.

(** The stores a session can be in: [init] runs when the page has loaded,
    the handlers run afterwards in any order (and so may [init], were it
    called again). *)
Inductive reachable : Store -> Prop :=
| reachable_init : reachable seed_store
| reachable_step s a : reachable s -> reachable (step s a).

(** What an action passes to [alert], if anything. *)
Definition raised (s : Store) (a : Action) : option Alert :=
  match a with
  | AddTask name date => snd (addTask name date s)
  | EditTask taskId newName newDate => snd (editTask taskId newName newDate s)
  | MarkAllAsCompleted confirmed => snd (markAllAsCompleted confirmed s)
  | ClearCompleted confirmed => snd (clearCompleted confirmed s)
  | ClearAll confirmed => snd (clearAll confirmed s)
  | Init | ToggleDone _ | RemoveTask _ _ => None
  end.

(* ================================================================== *)
(** ** The script with a Map *)
(* ================================================================== *)

(** The second script of the repository keeps the tasks in a [Map] from
    id to task.  Its [Task] class, its prompts, alerts and sort are those
    of the array script; the seed dates are a year later. *)
Module MapScript.

(** A [Map] as the list of its entries in insertion order. *)
Definition TaskMap : Type := list (Z * Task).

(** [map.set]: the value of a key that is there is replaced where it
    stands, a new key goes to the end. *)
Fixpoint Map_set (key : Z) (value : Task) (m : TaskMap) : TaskMap :=
  match m with
  | [] => [(key, value)]
  | (k, v) :: r =>
      if k =? key then (key, value) :: r else (k, v) :: Map_set key value r
  end.

Definition Map_get (key : Z) (m : TaskMap) : option Task :=
  match find (fun e => fst e =? key) m with
  | Some e => Some (snd e)
  | None => None
  end.

Definition Map_delete (key : Z) (m : TaskMap) : TaskMap :=
  filter (fun e => negb (fst e =? key)) m.

Definition Map_keys (m : TaskMap) : list Z := map fst m.

Definition Map_values (m : TaskMap) : list Task := map snd m.

Definition Map_size (m : TaskMap) : Z := Z.of_nat (List.length m).

(** An assignment through the reference [get] returned: the value of the
    entry changes, the entry stays where it is. *)
Fixpoint assign (key : Z) (task' : Task) (m : TaskMap) : TaskMap :=
  match m with
  | [] => []
  | (k, v) :: r => if k =? key then (k, task') :: r else (k, v) :: assign key task' r
  end.

(** The globals [tasksMap] and [window.nextId]. *)
Record Store : Type := mkStore {
  tasksMap : TaskMap;
  nextId : Z
}.

Definition initialMuseums : list Museum.t := [
  Museum.make "Museo Civico Archeologico" "2025-02-15" false;
  Museum.make "Pinacoteca Nazionale di Bologna" "2025-02-20" true;
  Museum.make "Museo della Storia di Bologna" "2025-03-01" false;
  Museum.make "MAMbo - Museo d'Arte Moderna di Bologna" "2025-03-10" false;
  Museum.make "Museo Internazionale della Musica" "2025-03-15" true;
  Museum.make "Museo Civico Medievale" "2025-03-20" false;
  Museum.make "Museo di Palazzo Poggi" "2025-04-01" false;
  Museum.make "Museo della Tappezzeria" "2025-04-05" false
].

Definition updateNextId (s : Store) : Store :=
  if Map_size (tasksMap s) =? 0
  then mkStore (tasksMap s) 1
  else
    let maxId :=
      fold_left (fun maxId id => if id >? maxId then id else maxId)
                (Map_keys (tasksMap s)) 0 in
    mkStore (tasksMap s) (maxId + 1).

(** [init] sets the seed tasks into the map it finds, which is the empty
    one when the page has loaded. *)
Definition init (s : Store) : Store :=
  updateNextId
    (mkStore
       (forEach (fun tasksMap museum index =>
                   let task := new_Task (index + 1) (Museum.name museum)
                                        (Museum.date museum) (Museum.completed museum) in
                   Map_set (id task) task tasksMap)
                initialMuseums (tasksMap s))
       (nextId s)).

Definition updateStats (s : Store) : Stats :=
  let counts :=
    fold_left (fun counts task =>
                 (fst counts + 1,
                  if completed task then snd counts + 1 else snd counts))
              (Map_values (tasksMap s)) (0, 0) in
  let totalCount := fst counts in
  let completedCount := snd counts in
  let pendingCount := totalCount - completedCount in
  mkStats totalCount completedCount pendingCount.

Definition empty_store : Store := mkStore [] 1.

Definition seed_store : Store := init empty_store.

Definition Outcome : Type := (Store * option Alert)%type.

Definition addTask (name : string) (date : option string) (s : Store) : Outcome :=
  if negb (truthy (trim name)) then (s, Some EmptyName)
  else if negb (truthy_opt date) then (s, Some MissingDate)
  else
    match date with
    | None => (s, Some MissingDate)
    | Some date =>
        let newTask := new_Task (nextId s) (trim name) date false in
        (mkStore (Map_set (id newTask) newTask (tasksMap s)) (nextId s + 1), None)
    end.

Definition toggleDone (taskId : Z) (s : Store) : Store :=
  match Map_get taskId (tasksMap s) with
  | Some task =>
      mkStore (assign taskId (set_completed task (negb (completed task))) (tasksMap s))
              (nextId s)
  | None => s
  end.

Definition removeTask (taskId : Z) (confirmed : bool) (s : Store) : Store :=
  if confirmed then mkStore (Map_delete taskId (tasksMap s)) (nextId s) else s.

Definition editTask (taskId : Z) (newName newDate : option string) (s : Store) : Outcome :=
  match Map_get taskId (tasksMap s) with
  | None => (s, None)
  | Some task =>
      let (task', alert) := editDate newDate (editName newName task) in
      (mkStore (assign taskId task' (tasksMap s)) (nextId s), alert)
  end.

Definition markAllAsCompleted (confirmed : bool) (s : Store) : Outcome :=
  if Map_size (tasksMap s) =? 0 then (s, Some NoMuseums)
  else if confirmed
  then (mkStore (map (fun e => (fst e, set_completed (snd e) true)) (tasksMap s))
                (nextId s), None)
  else (s, None).

(** The loop of [clearCompleted] walks the entries and deletes the one it
    stands on; an entry not yet visited is never deleted, so the walk sees
    the entries the map had when it started. *)
Definition clearCompleted (confirmed : bool) (s : Store) : Outcome :=
  let completedCount :=
    fold_left (fun completedCount task =>
                 if completed task then completedCount + 1 else completedCount)
              (Map_values (tasksMap s)) 0 in
  if completedCount =? 0 then (s, Some NothingToClear)
  else if confirmed
  then (mkStore (fold_left (fun m e => if completed (snd e) then Map_delete (fst e) m else m)
                           (tasksMap s) (tasksMap s))
                (nextId s), None)
  else (s, None).

Definition clearAll (confirmed : bool) (s : Store) : Outcome :=
  if Map_size (tasksMap s) =? 0 then (s, Some EmptyStore)
  else if confirmed then (mkStore [] 1, None) else (s, None).

Section Render.

Variable localeCompare : string -> string -> Z.
Variable Date_valueOf : string -> option Z.

Definition render (statusFilter searchInput sortBy : string) (s : Store) : list Task :=
  let searchTerm := toLowerCase searchInput in
  let filteredTasks :=
    fold_left (fun filteredTasks task =>
                 if matchesStatus statusFilter task && matchesSearch searchTerm task
                 then filteredTasks ++ [task]
                 else filteredTasks)
              (Map_values (tasksMap s)) [] in
  sort (compareTasks localeCompare Date_valueOf sortBy) filteredTasks.

End Render.

Definition step (s : Store) (a : Action) : Store :=
  match a with
  | Init => init s
  | AddTask name date => fst (addTask name date s)
  | ToggleDone taskId => toggleDone taskId s
  | RemoveTask taskId confirmed => removeTask taskId confirmed s
  | EditTask taskId newName newDate => fst (editTask taskId newName newDate s)
  | MarkAllAsCompleted confirmed => fst (markAllAsCompleted confirmed s)
  | ClearCompleted confirmed => fst (clearCompleted confirmed s)
  | ClearAll confirmed => fst (clearAll confirmed s)
  end.

Definition raised (s : Store) (a : Action) : option Alert :=
  match a with
  | AddTask name date => snd (addTask name date s)
  | EditTask taskId newName newDate => snd (editTask taskId newName newDate s)
  | MarkAllAsCompleted confirmed => snd (markAllAsCompleted confirmed s)
  | ClearCompleted confirmed => snd (clearCompleted confirmed s)
  | ClearAll confirmed => snd (clearAll confirmed s)
  | Init | ToggleDone _ | RemoveTask _ _ => None
  end.

Definition run (actions : list Action) (s : Store) : Store :=
  fold_left step actions s.

End MapScript.

(** The tasks of the map in the order of its entries, as an array store. *)
Definition to_array (s : MapScript.Store) : Store :=
  mkStore (MapScript.Map_values (MapScript.tasksMap s)) (MapScript.nextId s).

(** What holds of the map in every session: each task is under its own
    id, no key is there twice, and the counter is above every key. *)
Definition keyed_by_id (m : MapScript.TaskMap) : Prop :=
  Forall (fun e => fst e = id (snd e)) m.

Definition consistent (s : MapScript.Store) : Prop :=
  keyed_by_id (MapScript.tasksMap s)
  /\ NoDup (MapScript.Map_keys (MapScript.tasksMap s))
  /\ Forall (fun k => k < MapScript.nextId s) (MapScript.Map_keys (MapScript.tasksMap s)).

(* ================================================================== *)
(** ** What the specification's words mean *)
(* ================================================================== *)

(** "[s] contains [sub]": [sub] occurs in [s] between some prefix and some
    suffix. *)
Definition contains (s sub : string) : Prop :=
  exists pre post : string, s = (pre ++ sub ++ post)%string.

(** "[n] digits". *)
Definition digits (n : nat) (s : string) : Prop :=
  String.length s = n /\ Forall (fun c => isDigit c = true) (list_ascii_of_string s).

(** "matches the pattern [^\d{4}-\d{2}-\d{2}$]". *)
Definition date_pattern (s : string) : Prop :=
  exists y m d : string,
    digits 4 y /\ digits 2 m /\ digits 2 d /\ s = (y ++ "-" ++ m ++ "-" ++ d)%string.

(** "empty after trimming". *)
Definition blank (s : string) : Prop := trim s = "".

(** "falsy or absent". *)
Definition falsy (v : option string) : Prop := v = None \/ v = Some "".

(** The keep condition of a query, in the words of the specification. *)
Definition kept (filterStatus searchText : string) (r : Task) : Prop :=
  (filterStatus = "all"
   \/ (filterStatus = "pending" /\ completed r = false)
   \/ (filterStatus = "completed" /\ completed r = true))
  /\ contains (toLowerCase (name r)) (toLowerCase searchText).

(** The counter is above every id in the store. *)
Definition counter_above (s : Store) : Prop :=
  Forall (fun t => id t < nextId s) (tasks s).

(** No two records of the store share an id. *)
Definition unique_ids (s : Store) : Prop := NoDup (map id (tasks s)).

(** Every record's date has the shape of the pattern. *)
Definition dates_well_formed (s : Store) : Prop :=
  Forall (fun t => date_pattern (date t)) (tasks s).

(** What one operation can do to the list of ids and to the counter. *)
Inductive step_shape (s s' : Store) : Prop :=
| shape_init : s' = init s -> step_shape s s'
| shape_add (t : Task) :
    id t = nextId s -> tasks s' = tasks s ++ [t] -> nextId s' = nextId s + 1 ->
    step_shape s s'
| shape_clear : s' = mkStore [] 1 -> step_shape s s'
| shape_update :
    map id (tasks s') = map id (tasks s) -> nextId s' = nextId s -> step_shape s s'
| shape_filter (f : Task -> bool) :
    tasks s' = filter f (tasks s) -> nextId s' = nextId s -> step_shape s s'.

(** An action that hands [addTask] a date of the shape [YYYY-MM-DD];
    nothing is asked of the other actions. *)
Definition date_checked (a : Action) : Prop :=
  match a with
  | AddTask _ (Some date) => date_pattern date
  | _ => True
  end.

(** Valid input of an add: a name that is not blank and a truthy date. *)
Definition valid_input (p : string * option string) : Prop :=
  ~ blank (fst p) /\ ~ falsy (snd p).

Definition adds (inputs : list (string * option string)) : list Action :=
  map (fun p => AddTask (fst p) (snd p)) inputs.

(** The ids [n], [n + 1], ..., one for each of [k] adds. *)
Definition ids_from (n : Z) (k : nat) : list Z :=
  map (fun i => n + Z.of_nat i) (seq 0 k).

(* ================================================================== *)
(** ** The form and further notions *)
(* ================================================================== *)

(** The values of the two inputs [taskInput] and [dateInput]. *)
Record Form : Type := mkForm {
  taskInput : string;
  dateInput : string
}.

(** [addTask] together with its last two statements: when no test has
    sent it away it empties both inputs. *)
Definition addTask_form (name : string) (date : option string) (f : Form) (s : Store)
  : Form * Outcome :=
  match snd (addTask name date s) with
  | Some alert => (f, addTask name date s)
  | None => (mkForm "" "", addTask name date s)
  end.

(** The click handler of [addBtn]. *)
Definition addBtn_click (f : Form) (s : Store) : Form * Outcome :=
  let name := taskInput f in
  let date := dateInput f in
  addTask_form name (Some date) f s.

(** The keypress handler of [taskInput]; [key] is [e.key]. *)
Definition taskInput_keypress (key : string) (f : Form) (s : Store) : Form * Outcome :=
  if String.eqb key "Enter"
  then
    let name := taskInput f in
    let date := dateInput f in
    addTask_form name (Some date) f s
  else (f, (s, None)).

(** The number the sort takes from a comparison: [NaN] counts as zero. *)
Definition compared (comparefn : Task -> Task -> option Z) (a b : Task) : Z :=
  match comparefn a b with
  | Some v => v
  | None => 0
  end.

(** Every name in the store is not empty and has no white space around
    it. *)
Definition names_trimmed (s : Store) : Prop :=
  Forall (fun t => name t <> "" /\ trim (name t) = name t) (tasks s).

(** An action that is neither [init] nor a confirmed [clearAll]. *)
Definition keeps_counter (a : Action) : Prop :=
  a <> Init /\ a <> ClearAll true.


(* ================================================================== *)
(** ** Strings *)
(* ================================================================== *)

Section StringFacts.

Lemma prefix_append (sub s : string) :
  String.prefix sub s = true <-> exists post, s = (sub ++ post)%string.
Proof.
  revert s; induction sub as [|a sub IH]; intros s.
  - split; [intros _; now exists s | now destruct s].
  - destruct s as [|b s].
    + split; [discriminate | intros [post H]; discriminate H].
    + cbn [String.prefix String.append]. destruct (ascii_dec a b) as [Hab|Hab].
      * subst b. rewrite IH. split; intros [post H]; exists post.
        -- now rewrite H.
        -- now injection H.
      * split; [discriminate | intros [post H]; injection H; congruence].
Qed.

Lemma includes_contains (s sub : string) :
  includes s sub = true <-> contains s sub.
Proof.
  unfold contains. induction s as [|c s IH].
  - cbn [includes]. rewrite orb_false_r, prefix_append. split.
    + intros [post H]. now exists "", post.
    + intros [pre [post H]]. destruct pre; [now exists post | discriminate H].
  - cbn [includes]. rewrite orb_true_iff, prefix_append, IH. split.
    + intros [[post H] | [pre [post H]]].
      * now exists "", post.
      * exists (String c pre), post. simpl. now rewrite H.
    + intros [pre [post H]]. destruct pre as [|c' pre].
      * left. now exists post.
      * right. injection H as _ H. now exists pre, post.
Qed.

Lemma includes_empty (s : string) : includes s "" = true.
Proof. destruct s; reflexivity. Qed.

Lemma truthy_true (s : string) : truthy s = true <-> s <> "".
Proof.
  unfold truthy. rewrite negb_true_iff. split.
  - intros H ->. discriminate H.
  - intros H. destruct s; [contradiction | reflexivity].
Qed.

Lemma truthy_false (s : string) : truthy s = false <-> s = "".
Proof.
  unfold truthy. rewrite negb_false_iff. apply String.eqb_eq.
Qed.

Lemma truthy_opt_false (v : option string) : truthy_opt v = false <-> falsy v.
Proof.
  unfold falsy. destruct v as [d|]; simpl.
  - rewrite truthy_false. split; [intros ->; now right | intros [H|H]; congruence].
  - split; [now left | reflexivity].
Qed.

Lemma trim_truthy (s : string) : truthy (trim s) = true -> truthy s = true.
Proof. destruct s; [discriminate | reflexivity]. Qed.

End StringFacts.

(** *** The date shape *)

Section DateShape.

Local Ltac split_forall :=
  repeat match goal with
         | H : Forall _ (_ :: _) |- _ => inversion H; clear H; subst
         end.

Lemma dateRegex_test_sound (s : string) :
  dateRegex_test s = true -> date_pattern s.
Proof.
  unfold dateRegex_test.
  do 10 (destruct s as [|? s]; [discriminate|]).
  destruct s; [|discriminate].
  cbn [list_ascii_of_string].
  rewrite !andb_true_iff.
  intros [[[[[[[[[? ?] ?] ?] Hs1] ?] ?] Hs2] ?] ?].
  apply Ascii.eqb_eq in Hs1, Hs2. subst.
  eexists (String _ (String _ (String _ (String _ "")))),
          (String _ (String _ "")), (String _ (String _ "")).
  repeat split; cbn [list_ascii_of_string]; repeat constructor; assumption.
Qed.

Lemma dateRegex_test_complete (s : string) :
  date_pattern s -> dateRegex_test s = true.
Proof.
  intros (y & m & d & [Ly Dy] & [Lm Dm] & [Ld Dd] & ->).
  destruct y as [|y1 [|y2 [|y3 [|y4 [|? ?]]]]]; try discriminate Ly.
  destruct m as [|m1 [|m2 [|? ?]]]; try discriminate Lm.
  destruct d as [|d1 [|d2 [|? ?]]]; try discriminate Ld.
  cbn [list_ascii_of_string] in *. split_forall.
  unfold dateRegex_test. cbn [String.append list_ascii_of_string].
  repeat match goal with H : isDigit _ = true |- _ => rewrite H; clear H end.
  reflexivity.
Qed.

(** X24: the test of [editTask] accepts exactly the strings made of four
    digits, a dash, two digits, a dash and two digits, [^\d{4}-\d{2}-\d{2}$],
    and nothing before or after them. *)
Lemma dateRegex_test_spec (s : string) :
  dateRegex_test s = true <-> date_pattern s.
Proof. split; [apply dateRegex_test_sound | apply dateRegex_test_complete]. Qed.

End DateShape.

(* ================================================================== *)
(** ** Lists of tasks *)
(* ================================================================== *)

Section TaskLists.

Lemma find_task_In (taskId : Z) (l : list Task) (t : Task) :
  find_task taskId l = Some t -> In t l /\ id t = taskId.
Proof.
  unfold find_task. intros H. apply find_some in H.
  now rewrite Z.eqb_eq in H.
Qed.

Lemma find_task_present (taskId : Z) (l : list Task) :
  In taskId (map id l) -> exists t, find_task taskId l = Some t.
Proof.
  unfold find_task. induction l as [|t l IH]; simpl; [easy|].
  intros [H|H].
  - rewrite H, Z.eqb_refl. now exists t.
  - destruct (id t =? taskId); [now exists t | auto].
Qed.

Lemma map_id_assign (taskId : Z) (t' : Task) (l : list Task) :
  id t' = taskId -> map id (assign taskId t' l) = map id l.
Proof.
  intros Ht'. induction l as [|t l IH]; simpl; [reflexivity|].
  destruct (id t =? taskId) eqn:E; simpl.
  - apply Z.eqb_eq in E. congruence.
  - now rewrite IH.
Qed.

Lemma find_task_assign (taskId : Z) (t t' : Task) (l : list Task) :
  find_task taskId l = Some t -> id t' = taskId ->
  find_task taskId (assign taskId t' l) = Some t'.
Proof.
  unfold find_task. intros Hf Ht'. induction l as [|x l IH]; simpl in *; [discriminate|].
  destruct (id x =? taskId) eqn:E; simpl.
  - now rewrite Ht', Z.eqb_refl.
  - rewrite E. auto.
Qed.

Lemma In_assign (taskId : Z) (t' x : Task) (l : list Task) :
  In x (assign taskId t' l) -> x = t' \/ In x l.
Proof.
  induction l as [|t l IH]; simpl; [tauto|].
  destruct (id t =? taskId); simpl; intuition.
Qed.

Lemma Forall_assign (P : Task -> Prop) (taskId : Z) (t' : Task) (l : list Task) :
  P t' -> Forall P l -> Forall P (assign taskId t' l).
Proof.
  intros Ht' Hl. rewrite Forall_forall in *. intros x Hx.
  destruct (In_assign _ _ _ _ Hx) as [->|H]; auto.
Qed.

Lemma Forall_filter (P : Task -> Prop) (f : Task -> bool) (l : list Task) :
  Forall P l -> Forall P (filter f l).
Proof.
  rewrite !Forall_forall. intros H x Hx. apply filter_In in Hx. now apply H.
Qed.

Lemma NoDup_map_filter (f : Task -> bool) (l : list Task) :
  NoDup (map id l) -> NoDup (map id (filter f l)).
Proof.
  induction l as [|t l IH]; simpl; [trivial|].
  intros H. apply NoDup_cons_iff in H as [Hn Hd].
  destruct (f t); simpl; auto.
  constructor; auto.
  intros Hin. apply Hn. apply in_map_iff in Hin as (x & Hx & Hin).
  apply filter_In in Hin. apply in_map_iff. exists x. tauto.
Qed.

Lemma Math_max_ge (xs : list Z) (x : Z) :
  x <= Math_max x xs /\ Forall (fun y => y <= Math_max x xs) xs.
Proof.
  unfold Math_max. revert x. induction xs as [|y xs IH]; intros x; simpl.
  - split; [lia | constructor].
  - destruct (IH (Z.max x y)) as [H1 H2]. split; [lia|].
    constructor; [lia | assumption].
Qed.

End TaskLists.

(* ================================================================== *)
(** ** Sorting and rendering *)
(* ================================================================== *)

Section Sorting.

Variable comparefn : Task -> Task -> option Z.

Lemma sort_insert_Permutation (x : Task) (l : list Task) :
  Permutation (sort_insert comparefn x l) (x :: l).
Proof.
  induction l as [|y r IH]; cbn [sort_insert]; [reflexivity|].
  destruct (0 <? _); [|reflexivity].
  rewrite IH. apply perm_swap.
Qed.

Lemma sort_Permutation (l : list Task) : Permutation (sort comparefn l) l.
Proof.
  induction l as [|x r IH]; cbn [sort]; [reflexivity|].
  rewrite sort_insert_Permutation. now constructor.
Qed.

Lemma sort_In (l : list Task) (t : Task) : In t (sort comparefn l) <-> In t l.
Proof.
  split; apply Permutation_in; [|symmetry]; apply sort_Permutation.
Qed.

End Sorting.

Lemma matchesStatus_spec (statusFilter : string) (task : Task) :
  matchesStatus statusFilter task = true <->
  (statusFilter = "all"
   \/ (statusFilter = "pending" /\ completed task = false)
   \/ (statusFilter = "completed" /\ completed task = true)).
Proof.
  unfold matchesStatus.
  rewrite !orb_true_iff, !andb_true_iff, negb_true_iff, !String.eqb_eq. tauto.
Qed.

Lemma filter_kept (statusFilter searchInput : string) (task : Task) :
  matchesStatus statusFilter task && matchesSearch (toLowerCase searchInput) task = true
  <-> kept statusFilter searchInput task.
Proof.
  unfold kept, matchesSearch.
  now rewrite andb_true_iff, matchesStatus_spec, includes_contains.
Qed.

Section Rendering.

Variable localeCompare : string -> string -> Z.
Variable Date_valueOf : string -> option Z.

Lemma sort_insert_status (x : Task) (pending visited : list Task) :
  Forall (fun t => completed t = false) pending ->
  Forall (fun t => completed t = true) visited ->
  sort_insert (compareTasks localeCompare Date_valueOf "status") x (pending ++ visited)
  = if completed x then pending ++ x :: visited else x :: pending ++ visited.
Proof.
  intros Hp Hv. induction Hp as [|y pending Hy _ IH]; cbn [app].
  - destruct visited as [|y visited]; [now destruct (completed x)|].
    apply Forall_inv in Hv. cbn. rewrite Hv. now destruct (completed x).
  - cbn [sort_insert]. change (compareTasks _ _ "status" x y)
      with (Some (Z.b2z (completed x) - Z.b2z (completed y))).
    rewrite Hy. destruct (completed x); cbn; [now rewrite IH | reflexivity].
Qed.

(** Sorting by state puts the tasks to visit first and the visited ones
    after them, each group in the order it had. *)
Lemma sort_status (l : list Task) :
  sort (compareTasks localeCompare Date_valueOf "status") l
  = filter (fun t => negb (completed t)) l ++ filter (fun t => completed t) l.
Proof.
  induction l as [|x l IH]; cbn [sort filter]; [reflexivity|].
  rewrite IH, sort_insert_status.
  - now destruct (completed x).
  - apply Forall_forall. intros t Ht. apply filter_In in Ht as [_ Ht].
    now apply negb_true_iff.
  - apply Forall_forall. intros t Ht. now apply filter_In in Ht.
Qed.

Lemma render_Permutation (statusFilter searchInput sortBy : string) (s : Store) :
  Permutation
    (render localeCompare Date_valueOf statusFilter searchInput sortBy s)
    (filter (fun task => matchesStatus statusFilter task
                         && matchesSearch (toLowerCase searchInput) task)
            (tasks s)).
Proof. unfold render. apply sort_Permutation. Qed.

Lemma render_In (statusFilter searchInput sortBy : string) (s : Store) (r : Task) :
  In r (render localeCompare Date_valueOf statusFilter searchInput sortBy s)
  <-> In r (tasks s) /\ kept statusFilter searchInput r.
Proof.
  unfold render. now rewrite sort_In, filter_In, filter_kept.
Qed.

End Rendering.

(* ================================================================== *)
(** ** Invariants of the store *)
(* ================================================================== *)

Section Invariants.

Lemma editName_fields newName t :
  id (editName newName t) = id t /\ date (editName newName t) = date t
  /\ completed (editName newName t) = completed t.
Proof.
  unfold editName. destruct newName as [n|]; [|easy].
  destruct (_ && _); easy.
Qed.

Lemma editDate_fields newDate t :
  id (fst (editDate newDate t)) = id t /\ name (fst (editDate newDate t)) = name t
  /\ completed (fst (editDate newDate t)) = completed t.
Proof.
  unfold editDate. destruct newDate as [d|]; [|easy].
  destruct (_ && _); [|easy]. destruct (dateRegex_test d); easy.
Qed.

Lemma edited_id newName newDate t :
  id (fst (editDate newDate (editName newName t))) = id t.
Proof.
  destruct (editDate_fields newDate (editName newName t)) as [-> _].
  apply editName_fields.
Qed.

Lemma updateNextId_above (s : Store) : counter_above (updateNextId s).
Proof.
  unfold counter_above, updateNextId.
  destruct (map id (tasks s)) as [|x xs] eqn:E; cbn [tasks nextId].
  - destruct (tasks s); [constructor | discriminate E].
  - destruct (Math_max_ge xs x) as [Hx Hxs].
    assert (H : Forall (fun y => y < Math_max x xs + 1) (map id (tasks s))).
    { rewrite E. constructor; [lia|].
      eapply Forall_impl; [|exact Hxs]. cbv beta. intros. lia. }
    rewrite Forall_map in H. exact H.
Qed.

(** [init] gives the seed museums the ids 1 to 8 in their order and sets
    the counter to 9. *)
Lemma init_ids (s : Store) :
  map id (tasks (init s)) = [1; 2; 3; 4; 5; 6; 7; 8] /\ nextId (init s) = 9.
Proof. split; reflexivity. Qed.

Lemma init_above (s : Store) : counter_above (init s).
Proof. apply updateNextId_above. Qed.

Lemma init_unique (s : Store) : unique_ids (init s).
Proof.
  unfold unique_ids. cbv -[Z.add Z.lt].
  repeat constructor; cbn; intuition discriminate.
Qed.

Lemma addTask_accepted (name date : string) (s : Store) :
  trim name <> "" -> date <> "" ->
  addTask name (Some date) s =
  (mkStore (tasks s ++ [new_Task (nextId s) (trim name) date false]) (nextId s + 1),
   None).
Proof.
  intros Hn Hd. unfold addTask, truthy_opt.
  apply truthy_true in Hn, Hd. now rewrite Hn, Hd.
Qed.

Lemma addTask_cases (name : string) (date : option string) (s : Store) :
  addTask name date s = (s, Some EmptyName)
  \/ addTask name date s = (s, Some MissingDate)
  \/ exists d, date = Some d /\ trim name <> "" /\ d <> "".
Proof.
  unfold addTask. destruct (truthy (trim name)) eqn:Hn; cbn [negb]; [|now left].
  destruct (truthy_opt date) eqn:Hd; cbn [negb]; [|now right; left].
  destruct date as [d|]; [|discriminate Hd].
  right; right. exists d. cbn in Hd. apply truthy_true in Hn, Hd. auto.
Qed.

End Invariants.

Section Steps.

Lemma step_has_shape (s : Store) (a : Action) : step_shape s (step s a).
Proof.
  destruct a as [|n d|k|k c|k n d|c|c|c]; cbn [step].
  - now apply shape_init.
  - destruct (addTask_cases n d s) as [E|[E|(d' & -> & Hn & Hd)]].
    + rewrite E. now apply shape_update.
    + rewrite E. now apply shape_update.
    + rewrite (addTask_accepted _ _ _ Hn Hd).
      now apply (shape_add _ _ (new_Task (nextId s) (trim n) d' false)).
  - unfold toggleDone.
    destruct (find_task k (tasks s)) as [t|] eqn:E; [|now apply shape_update].
    apply shape_update; [|reflexivity].
    apply map_id_assign. apply find_task_In in E. tauto.
  - unfold removeTask. destruct c; [|now apply shape_update].
    now eapply shape_filter.
  - unfold editTask.
    destruct (find_task k (tasks s)) as [t|] eqn:E; [|now apply shape_update].
    destruct (editDate d (editName n t)) as [t' al] eqn:E'.
    apply shape_update; [|reflexivity]. apply map_id_assign.
    change t' with (fst (t', al)). rewrite <- E', edited_id.
    apply find_task_In in E. tauto.
  - unfold markAllAsCompleted. destruct (tasks s) as [|t l] eqn:E.
    + now apply shape_update.
    + destruct c; [|now apply shape_update].
      apply shape_update; [|reflexivity].
      cbn [fst tasks]. rewrite <- E, map_map. reflexivity.
  - unfold clearCompleted.
    destruct (filter _ (tasks s)); [now apply shape_update|].
    destruct c; [|now apply shape_update]. now eapply shape_filter.
  - unfold clearAll. destruct (tasks s) as [|t l] eqn:E; [now apply shape_update|].
    destruct c; [now apply shape_clear | now apply shape_update].
Qed.

Lemma counter_above_ids (s : Store) :
  counter_above s <-> Forall (fun i => i < nextId s) (map id (tasks s)).
Proof. unfold counter_above. now rewrite Forall_map. Qed.

Lemma step_counter_above (s : Store) (a : Action) :
  counter_above s -> counter_above (step s a).
Proof.
  intros H. destruct (step_has_shape s a) as [E|t Ht Et En|E|Ei En|f Et En].
  - rewrite E. apply init_above.
  - unfold counter_above in *. rewrite Et, En. apply Forall_app. split.
    + eapply Forall_impl; [|exact H]. cbv beta. intros. lia.
    + repeat constructor. lia.
  - rewrite E. constructor.
  - apply counter_above_ids. rewrite Ei, En. now apply counter_above_ids.
  - unfold counter_above in *. rewrite Et, En. now apply Forall_filter.
Qed.

Lemma step_unique_ids (s : Store) (a : Action) :
  counter_above s -> unique_ids s -> unique_ids (step s a).
Proof.
  intros Ha Hu. destruct (step_has_shape s a) as [E|t Ht Et En|E|Ei En|f Et En].
  - rewrite E. apply init_unique.
  - unfold unique_ids in *. rewrite Et, map_app. cbn [map].
    apply NoDup_app; [assumption | repeat constructor; easy |].
    intros i Hi [<-|[]]. apply counter_above_ids in Ha.
    rewrite Forall_forall in Ha. specialize (Ha _ Hi). lia.
  - rewrite E. constructor.
  - unfold unique_ids. now rewrite Ei.
  - unfold unique_ids. rewrite Et. now apply NoDup_map_filter.
Qed.

Lemma reachable_run (s : Store) :
  reachable s <-> exists actions, s = run actions seed_store.
Proof.
  split.
  - induction 1 as [|s a _ [actions ->]].
    + now exists [].
    + exists (actions ++ [a]). unfold run. now rewrite fold_left_app.
  - intros [actions ->]. induction actions as [|a actions IH] using rev_ind.
    + apply reachable_init.
    + unfold run. rewrite fold_left_app. now apply reachable_step.
Qed.

Lemma reachable_invariant (s : Store) :
  reachable s -> counter_above s /\ unique_ids s.
Proof.
  induction 1 as [|s a _ [Ha Hu]].
  - split; [apply init_above | apply init_unique].
  - split; [now apply step_counter_above | now apply step_unique_ids].
Qed.

End Steps.

(** *** Dates *)

Section Dates.

Lemma editDate_keeps_shape (newDate : option string) (t : Task) :
  date_pattern (date t) -> date_pattern (date (fst (editDate newDate t))).
Proof.
  intros H. unfold editDate. destruct newDate as [d|]; [|exact H].
  destruct (_ && _); [|exact H].
  destruct (dateRegex_test d) eqn:E; [|exact H].
  now apply dateRegex_test_sound.
Qed.

Lemma seed_dates (s : Store) : dates_well_formed (init s).
Proof.
  unfold dates_well_formed.
  apply Forall_impl with (P := fun t => dateRegex_test (date t) = true).
  - intros t. apply dateRegex_test_sound.
  - cbv -[Z.add Z.lt]. repeat constructor.
Qed.

Lemma step_dates (s : Store) (a : Action) :
  date_checked a -> dates_well_formed s -> dates_well_formed (step s a).
Proof.
  unfold dates_well_formed. intros Ha H.
  destruct a as [|n d|k|k c|k n d|c|c|c]; cbn [step].
  - apply seed_dates.
  - destruct (addTask_cases n d s) as [E|[E|(d' & -> & Hn & Hd)]];
      [now rewrite E | now rewrite E |].
    rewrite (addTask_accepted _ _ _ Hn Hd). cbn [fst tasks].
    apply Forall_app. split; [exact H|]. now repeat constructor.
  - unfold toggleDone.
    destruct (find_task k (tasks s)) as [t|] eqn:E; [|exact H].
    cbn [tasks]. apply Forall_assign; [|exact H]. cbn [set_completed date].
    apply find_task_In in E as [E _]. rewrite Forall_forall in H. now apply H.
  - unfold removeTask. destruct c; [|exact H]. now apply Forall_filter.
  - unfold editTask.
    destruct (find_task k (tasks s)) as [t|] eqn:E; [|exact H].
    destruct (editDate d (editName n t)) as [t' al] eqn:E'. cbn [fst tasks].
    apply Forall_assign; [|exact H].
    change t' with (fst (t', al)). rewrite <- E'. apply editDate_keeps_shape.
    destruct (editName_fields n t) as (_ & -> & _).
    apply find_task_In in E as [E _]. rewrite Forall_forall in H. now apply H.
  - unfold markAllAsCompleted. destruct (tasks s) as [|t l] eqn:E;
      cbn [fst]; [now rewrite E|].
    destruct c; cbn [fst tasks]; [|now rewrite E].
    rewrite Forall_map. exact H.
  - unfold clearCompleted. destruct (filter _ (tasks s)); [exact H|].
    destruct c; [|exact H]. now apply Forall_filter.
  - unfold clearAll. destruct (tasks s) as [|t l] eqn:E;
      cbn [fst]; [now rewrite E|].
    destruct c; cbn [fst tasks]; [constructor | now rewrite E].
Qed.

End Dates.

(* ================================================================== *)
(** ** The statistics of the dashboard *)
(* ================================================================== *)

Section Statistics.

Lemma filter_split_length (f : Task -> bool) (l : list Task) :
  List.length l =
  (List.length (filter f l) + List.length (filter (fun t => negb (f t)) l))%nat.
Proof.
  induction l as [|t l IH]; simpl; [reflexivity|].
  destruct (f t); simpl; lia.
Qed.

Lemma pendingCount_counts (s : Store) :
  pendingCount (updateStats s) =
  Z.of_nat (List.length (filter (fun task => negb (completed task)) (tasks s))).
Proof.
  unfold updateStats. cbn [pendingCount].
  rewrite (filter_split_length (fun task => completed task) (tasks s)). lia.
Qed.

End Statistics.

(** C1 as it is stated fails: the seed list has two visited museums, so
    the three numbers of the dashboard are not 8, 3 and 5. *)
Lemma seed_counts_are_not_8_3_5 :
  ~ (totalCount (updateStats seed_store) = 8
     /\ completedCount (updateStats seed_store) = 3
     /\ pendingCount (updateStats seed_store) = 5).
Proof. intros (_ & H & _). vm_compute in H. discriminate H. Qed.

(** C1, amended: after [init] the dashboard shows 8 museums, 2 visited and
    6 to visit; and in every store the number to visit is the total minus
    the number visited, which is the number of tasks not completed. *)
Theorem seed_counts_8_2_6 :
  (forall s, updateStats (init s) = mkStats 8 2 6)
  /\ (forall s,
         pendingCount (updateStats s)
         = totalCount (updateStats s) - completedCount (updateStats s)
         /\ totalCount (updateStats s) = Z.of_nat (List.length (tasks s))
         /\ completedCount (updateStats s)
            = Z.of_nat (List.length (filter completed (tasks s)))
         /\ pendingCount (updateStats s)
            = Z.of_nat (List.length (filter (fun t => negb (completed t)) (tasks s)))).
Proof.
  split.
  - intros s. reflexivity.
  - intros s. repeat split. apply pendingCount_counts.
Qed.

(** C2 as it is stated fails: on the seed store the answer ["2025-13-40"]
    to the date prompt of the first museum raises no alert and replaces
    the date. *)
Lemma edit_2025_13_40_is_not_rejected :
  ~ (snd (editTask 1 None (Some "2025-13-40") seed_store) = Some InvalidDateFormat
     /\ option_map date (find_task 1 (tasks (fst (editTask 1 None (Some "2025-13-40") seed_store))))
        = option_map date (find_task 1 (tasks seed_store))).
Proof. intros [H _]. vm_compute in H. discriminate H. Qed.

(** C2, amended: for every id in the store, a cancelled name prompt and
    the answer ["2025-13-40"] to the date prompt pass the shape test: no
    alert is raised, the record's date is ["2025-13-40"] afterwards and its
    other fields are as before. *)
Theorem edit_2025_13_40_is_accepted (s : Store) (taskId : Z) (task : Task) :
  find_task taskId (tasks s) = Some task ->
  dateRegex_test "2025-13-40" = true
  /\ snd (editTask taskId None (Some "2025-13-40") s) = None
  /\ find_task taskId (tasks (fst (editTask taskId None (Some "2025-13-40") s)))
     = Some (set_date task "2025-13-40")
  /\ nextId (fst (editTask taskId None (Some "2025-13-40") s)) = nextId s.
Proof.
  intros Hf. split; [reflexivity|].
  unfold editTask. rewrite Hf. cbn [editName].
  assert (E : editDate (Some "2025-13-40") task = (set_date task "2025-13-40", None)).
  { unfold editDate. change (truthy "2025-13-40") with true. cbn [andb].
    destruct (String.eqb "2025-13-40" (date task)) eqn:E; cbn [negb].
    - apply String.eqb_eq in E. destruct task as [i n d c]. cbn in E. now subst d.
    - reflexivity. }
  rewrite E. cbn [fst snd tasks nextId]. repeat split.
  apply (find_task_assign _ task); [exact Hf|].
  apply find_task_In in Hf. cbn. tauto.
Qed.

(** The third museum of the seed store takes the date ["2025-13-40"]. *)
Lemma edit_2025_13_40_is_accepted_on_seed :
  snd (editTask 3 None (Some "2025-13-40") seed_store) = None
  /\ find_task 3 (tasks (fst (editTask 3 None (Some "2025-13-40") seed_store)))
     = Some (new_Task 3 "Museo della Storia di Bologna" "2025-13-40" false).
Proof.
  pose proof (edit_2025_13_40_is_accepted seed_store 3
                (new_Task 3 "Museo della Storia di Bologna" "2024-03-01" false)
                eq_refl) as (_ & H1 & H2 & _).
  split; [exact H1 | exact H2].
Defined.

(* ================================================================== *)
(** ** Queries *)
(* ================================================================== *)

Lemma contains_empty (s : string) : contains s "".
Proof. apply includes_contains, includes_empty. Qed.

Lemma pending_filter (task : Task) :
  matchesStatus "pending" task && matchesSearch (toLowerCase "") task
  = negb (completed task).
Proof.
  unfold matchesSearch. change (toLowerCase "") with "".
  rewrite includes_empty, andb_true_r.
  unfold matchesStatus. now destruct (completed task).
Qed.

Section Queries.

Variable localeCompare : string -> string -> Z.
Variable Date_valueOf : string -> option Z.

(** C9: a query keeps a record exactly when its state passes the status
    filter and its lower-cased name contains the lower-cased search text;
    the result is, in some order, the records of the store the condition
    holds of; an empty search text holds of every name; and the query
    ["pending"] with an empty text returns, in some order, exactly the
    records that are not completed. *)
Theorem query_keeps_exactly (s : Store) (filterStatus searchText sortKey : string) :
  (forall r,
      In r (render localeCompare Date_valueOf filterStatus searchText sortKey s)
      <-> In r (tasks s) /\ kept filterStatus searchText r)
  /\ (exists keep : Task -> bool,
         (forall r, keep r = true <-> kept filterStatus searchText r)
         /\ Permutation
              (render localeCompare Date_valueOf filterStatus searchText sortKey s)
              (filter keep (tasks s)))
  /\ (forall r, contains (toLowerCase (name r)) (toLowerCase ""))
  /\ Permutation
       (render localeCompare Date_valueOf "pending" "" sortKey s)
       (filter (fun r => negb (completed r)) (tasks s)).
Proof.
  split; [|split; [|split]].
  - intros r. apply render_In.
  - exists (fun task => matchesStatus filterStatus task
                          && matchesSearch (toLowerCase searchText) task).
    split; [|apply render_Permutation].
    intros r. apply filter_kept.
  - intros r. apply contains_empty.
  - rewrite render_Permutation.
    rewrite (filter_ext _ _ pending_filter). reflexivity.
Qed.

(** C3, amended: on the seed store a query for ["museo"], whatever the sort
    key, returns exactly the seed records that pass the status filter and
    whose name contains "museo" when lower-cased.  With the filter ["all"]
    these are seven of the eight seed entries, every one but the second
    ("Pinacoteca Nazionale di Bologna"); with ["pending"] they are six and
    with ["completed"] one. *)
Theorem museo_query_on_seed (s : Store) (sortKey : string) :
  (forall filterStatus r,
      In r (render localeCompare Date_valueOf filterStatus "museo" sortKey (init s))
      <-> In r (tasks (init s)) /\ kept filterStatus "museo" r)
  /\ (forall r,
         In r (render localeCompare Date_valueOf "all" "museo" sortKey (init s))
         <-> In r (tasks (init s)) /\ contains (toLowerCase (name r)) "museo")
  /\ Permutation
       (render localeCompare Date_valueOf "all" "museo" sortKey (init s))
       (filter (fun r => negb (id r =? 2)) (tasks (init s)))
  /\ List.length (render localeCompare Date_valueOf "all" "museo" sortKey (init s)) = 7%nat
  /\ List.length (render localeCompare Date_valueOf "pending" "museo" sortKey (init s)) = 6%nat
  /\ List.length (render localeCompare Date_valueOf "completed" "museo" sortKey (init s)) = 1%nat.
Proof.
  split; [|split; [|split; [|split; [|split]]]].
  - intros filterStatus r. apply render_In.
  - intros r. rewrite render_In. unfold kept. change (toLowerCase "museo") with "museo".
    intuition.
  - rewrite render_Permutation. vm_compute. reflexivity.
  - rewrite (Permutation_length (render_Permutation _ _ _ _ _ _)). reflexivity.
  - rewrite (Permutation_length (render_Permutation _ _ _ _ _ _)). reflexivity.
  - rewrite (Permutation_length (render_Permutation _ _ _ _ _ _)). reflexivity.
Qed.

End Queries.

(** C3 as it is stated fails: the query for ["museo"] with the filter
    ["all"] does not return every seed entry, since the name of the second
    one has no "museo" in it; and with the filter ["pending"] it does not
    return the fifth one, whose name has. *)
Lemma museo_query_misses_the_pinacoteca :
  ~ (forall r,
        In r (tasks seed_store)
        -> In r (render (fun _ _ => 0) (fun _ => None) "all" "museo" "status" seed_store))
  /\ ~ (forall r,
           In r (tasks seed_store)
           -> contains (toLowerCase (name r)) (toLowerCase "museo")
           -> In r (render (fun _ _ => 0) (fun _ => None) "pending" "museo" "status"
                           seed_store)).
Proof.
  split; intros H.
  - specialize (H (new_Task 2 "Pinacoteca Nazionale di Bologna" "2024-02-20" true)).
    vm_compute in H.
    destruct H as [H|[H|[H|[H|[H|[H|[H|[]]]]]]]]; try discriminate H.
    right; left; reflexivity.
  - specialize (H (new_Task 5 "Museo Internazionale della Musica" "2024-03-15" true)).
    assert (Hin : In (new_Task 5 "Museo Internazionale della Musica" "2024-03-15" true)
                     (tasks seed_store)).
    { vm_compute. do 4 right. now left. }
    assert (Hc : contains (toLowerCase "Museo Internazionale della Musica")
                          (toLowerCase "museo")).
    { apply includes_contains. reflexivity. }
    specialize (H Hin Hc). vm_compute in H.
    destruct H as [H|[H|[H|[H|[H|[H|[]]]]]]]; discriminate H.
Qed.

(* ================================================================== *)
(** ** The shape of the stored dates *)
(* ================================================================== *)

Lemma run_dates (actions : list Action) (s : Store) :
  Forall date_checked actions -> dates_well_formed s ->
  dates_well_formed (run actions s).
Proof.
  revert s. induction actions as [|a actions IH]; intros s Ha Hs; [exact Hs|].
  inversion Ha; subst. cbn [run fold_left]. apply IH; [assumption|].
  now apply step_dates.
Qed.

(** C4 as it is stated fails: [addTask] stores whatever non-empty date it
    is given, so one add after [init] leaves a record whose date has not
    the shape [YYYY-MM-DD]. *)
Lemma add_stores_a_date_of_any_shape :
  ~ dates_well_formed (run [AddTask "X" (Some "domani")] seed_store).
Proof.
  unfold dates_well_formed. rewrite Forall_forall. intros H.
  specialize (H (new_Task 9 "X" "domani" false)).
  assert (Hp : date_pattern "domani").
  { apply H. vm_compute. do 8 right. now left. }
  apply dateRegex_test_complete in Hp. discriminate Hp.
Qed.

(** C4, amended: in every store reached from [init] by operations in which
    each add was handed a date of the shape [^\d{4}-\d{2}-\d{2}$], every
    record has a date of that shape; the other operations, whatever their
    arguments, never break it. *)
Theorem dates_well_formed_when_adds_are (actions : list Action) :
  Forall date_checked actions -> dates_well_formed (run actions seed_store).
Proof.
  intros H. apply run_dates; [exact H | apply seed_dates].
Qed.

(** A session with an add, edits (one of them rejected), a toggle and
    removals. *)
Lemma dates_well_formed_after_a_session :
  dates_well_formed
    (run [AddTask "Museo Morandi" (Some "2025-01-01");
          EditTask 1 (Some "Archeologico") (Some "2025-13-40");
          EditTask 2 None (Some "presto");
          ToggleDone 3; RemoveTask 4 true; ClearCompleted true]
         seed_store).
Proof.
  apply dates_well_formed_when_adds_are.
  repeat first [apply Forall_nil | apply Forall_cons]; cbn [date_checked];
    try exact I.
  apply dateRegex_test_sound. reflexivity.
Defined.

(* ================================================================== *)
(** ** Adding *)
(* ================================================================== *)

Section Adding.

Lemma ids_from_S (n : Z) (k : nat) : ids_from n (S k) = n :: ids_from (n + 1) k.
Proof.
  unfold ids_from. cbn [seq map]. f_equal; [lia|].
  rewrite <- seq_shift, map_map. apply map_ext. intros i. lia.
Qed.

Lemma ids_from_ge (n : Z) (k : nat) : Forall (fun i => n <= i) (ids_from n k).
Proof.
  unfold ids_from. rewrite Forall_map, Forall_forall. intros i _. lia.
Qed.

Lemma ids_from_increasing (n : Z) (k : nat) : StronglySorted Z.lt (ids_from n k).
Proof.
  revert n. induction k as [|k IH]; intros n.
  - constructor.
  - rewrite ids_from_S. constructor; [apply IH|].
    eapply Forall_impl; [|apply (ids_from_ge (n + 1) k)]. cbv beta. intros. lia.
Qed.

Lemma valid_input_accepted (name : string) (date : option string) (s : Store) :
  valid_input (name, date) ->
  exists d, date = Some d
            /\ addTask name date s =
               (mkStore (tasks s ++ [new_Task (nextId s) (trim name) d false])
                        (nextId s + 1), None).
Proof.
  intros [Hn Hd]. unfold blank, falsy in *. cbn [fst snd] in *.
  destruct date as [d|]; [|tauto].
  exists d. split; [reflexivity|]. apply addTask_accepted; [exact Hn|].
  intros ->. tauto.
Qed.

Lemma run_adds (inputs : list (string * option string)) (s : Store) :
  Forall valid_input inputs ->
  exists added,
    tasks (run (adds inputs) s) = tasks s ++ added
    /\ map id added = ids_from (nextId s) (List.length inputs)
    /\ nextId (run (adds inputs) s) = nextId s + Z.of_nat (List.length inputs).
Proof.
  revert s. induction inputs as [|[n d] inputs IH]; intros s H.
  - exists []. cbn. rewrite app_nil_r. split; [reflexivity|]. split; [reflexivity|lia].
  - inversion H as [|? ? Hv Hrest]; subst.
    destruct (valid_input_accepted n d s Hv) as (d' & -> & E).
    cbn [adds map run fold_left step fst snd]. rewrite E. cbn [fst].
    destruct (IH (mkStore (tasks s ++ [new_Task (nextId s) (trim n) d' false])
                          (nextId s + 1)) Hrest) as (added & Ht & Hi & Hn).
    cbn [tasks nextId] in *.
    exists (new_Task (nextId s) (trim n) d' false :: added).
    split; [|split].
    + unfold run, adds in Ht. rewrite Ht, <- app_assoc. reflexivity.
    + cbn [map id List.length]. now rewrite ids_from_S, Hi.
    + unfold run, adds in Hn. rewrite Hn. cbn [List.length]. lia.
Qed.

Lemma reachable_after_run (actions : list Action) (s : Store) :
  reachable s -> reachable (run actions s).
Proof.
  revert s. induction actions as [|a actions IH]; intros s H; [exact H|].
  cbn [run fold_left]. apply IH. now apply reachable_step.
Qed.

End Adding.

(** C5: from any store a session can be in, a sequence of adds with valid
    input appends one record per add; the ids of the new records are the
    successive values of the counter, each greater than the one before it
    and than every id that was in the store; and no two records of the
    resulting store share an id. *)
Theorem add_ids_increasing_and_unique
  (s : Store) (inputs : list (string * option string)) :
  reachable s -> Forall valid_input inputs ->
  exists added,
    tasks (run (adds inputs) s) = tasks s ++ added
    /\ List.length added = List.length inputs
    /\ map id added = ids_from (nextId s) (List.length inputs)
    /\ StronglySorted Z.lt (map id added)
    /\ Forall (fun old => Forall (fun new => id old < id new) added) (tasks s)
    /\ unique_ids (run (adds inputs) s).
Proof.
  intros Hr Hv. destruct (run_adds inputs s Hv) as (added & Ht & Hi & _).
  exists added. split; [exact Ht|]. split; [|split; [exact Hi|split; [|split]]].
  - rewrite <- (length_map id added), Hi. unfold ids_from.
    now rewrite length_map, length_seq.
  - rewrite Hi. apply ids_from_increasing.
  - destruct (reachable_invariant s Hr) as [Ha _].
    eapply Forall_impl; [|exact Ha]. cbv beta. intros old Hold.
    pose proof (ids_from_ge (nextId s) (List.length inputs)) as Hge.
    rewrite <- Hi, Forall_map in Hge.
    eapply Forall_impl; [|exact Hge]. cbv beta. intros. lia.
  - apply reachable_invariant. now apply reachable_after_run.
Qed.

(** Two adds after [init] get the ids 9 and 10. *)
Lemma add_ids_after_seed :
  exists added,
    tasks (run (adds [("Museo Morandi", Some "2025-01-01");
                      ("  Museo Ducati ", Some "domani")]) seed_store)
    = tasks seed_store ++ added
    /\ map id added = [9; 10].
Proof.
  destruct (add_ids_increasing_and_unique seed_store
              [("Museo Morandi", Some "2025-01-01"); ("  Museo Ducati ", Some "domani")])
    as (added & Ht & _ & Hi & _).
  - apply reachable_init.
  - repeat constructor; cbv; intros H; (discriminate H || (destruct H; discriminate)).
  - exists added. split; [exact Ht | exact Hi].
Defined.

Section Rejections.

Lemma blank_not_truthy (name : string) : blank name -> truthy (trim name) = false.
Proof. unfold blank. intros ->. reflexivity. Qed.

Lemma addTask_blank (name : string) (date : option string) (s : Store) :
  blank name -> addTask name date s = (s, Some EmptyName).
Proof. intros H. unfold addTask. now rewrite (blank_not_truthy _ H). Qed.

Lemma addTask_missing_date (name : string) (date : option string) (s : Store) :
  ~ blank name -> falsy date -> addTask name date s = (s, Some MissingDate).
Proof.
  intros Hn Hd. unfold addTask.
  apply truthy_true in Hn. apply truthy_opt_false in Hd. now rewrite Hn, Hd.
Qed.

Lemma blank_dec (name : string) : {blank name} + {~ blank name}.
Proof. apply string_dec. Qed.

End Rejections.

(** C6: in every store and whatever the date, an add whose name is empty
    after trimming raises [EmptyName]; an add with a falsy or absent date
    raises [MissingDate] (the name is tested first, so with a blank name
    the alert is [EmptyName]); and in every one of these cases the list of
    tasks and the counter are what they were. *)
Theorem add_rejects_blank_name_and_missing_date
  (s : Store) (name : string) (date : option string) :
  (blank name -> addTask name date s = (s, Some EmptyName))
  /\ (falsy date -> ~ blank name -> addTask name date s = (s, Some MissingDate))
  /\ (blank name \/ falsy date ->
      fst (addTask name date s) = s
      /\ (snd (addTask name date s) = Some EmptyName
          \/ snd (addTask name date s) = Some MissingDate)).
Proof.
  split; [|split].
  - apply addTask_blank.
  - intros Hd Hn. now apply addTask_missing_date.
  - intros H. destruct (blank_dec name) as [Hn|Hn].
    + rewrite (addTask_blank _ date s Hn). auto.
    + destruct H as [H|H]; [contradiction|].
      rewrite (addTask_missing_date _ _ s Hn H). auto.
Qed.

(** The four rejections on the seed store. *)
Lemma add_rejections_on_seed :
  addTask "  " (Some "2025-01-01") seed_store = (seed_store, Some EmptyName)
  /\ addTask "" None seed_store = (seed_store, Some EmptyName)
  /\ addTask "Museo Morandi" (Some "") seed_store = (seed_store, Some MissingDate)
  /\ addTask "Museo Morandi" None seed_store = (seed_store, Some MissingDate).
Proof.
  split; [|split; [|split]].
  - apply (add_rejects_blank_name_and_missing_date seed_store "  " (Some "2025-01-01")).
    reflexivity.
  - apply (add_rejects_blank_name_and_missing_date seed_store "" None).
    reflexivity.
  - apply (add_rejects_blank_name_and_missing_date seed_store "Museo Morandi" (Some "")).
    + right; reflexivity.
    + discriminate.
  - apply (add_rejects_blank_name_and_missing_date seed_store "Museo Morandi" None).
    + left; reflexivity.
    + discriminate.
Defined.

(* ================================================================== *)
(** ** Editing *)
(* ================================================================== *)

Section Editing.

Lemma editName_applies (newName : string) (task : Task) :
  ~ blank newName -> name (editName (Some newName) task) = trim newName.
Proof.
  intros Hn. unfold editName.
  apply truthy_true in Hn. rewrite (trim_truthy _ Hn), Hn. cbn [andb].
  destruct (String.eqb (trim newName) (name task)) eqn:E; cbn [negb].
  - apply String.eqb_eq in E. now rewrite E.
  - reflexivity.
Qed.

Lemma editDate_rejected (newDate : option string) (task : Task) :
  snd (editDate newDate task) = Some InvalidDateFormat ->
  fst (editDate newDate task) = task.
Proof.
  unfold editDate. destruct newDate as [d|]; [|discriminate].
  destruct (_ && _); [|discriminate].
  destruct (dateRegex_test d); [discriminate | reflexivity].
Qed.

Lemma editDate_rejects (d : string) (task : Task) :
  d <> "" -> d <> date task -> dateRegex_test d = false ->
  editDate (Some d) task = (task, Some InvalidDateFormat).
Proof.
  intros Hd Hne Ht. unfold editDate.
  apply truthy_true in Hd. apply String.eqb_neq in Hne.
  now rewrite Hd, Hne, Ht.
Qed.

Lemma editTask_found (taskId : Z) (newName newDate : option string)
      (s : Store) (task : Task) :
  find_task taskId (tasks s) = Some task ->
  let task' := fst (editDate newDate (editName newName task)) in
  editTask taskId newName newDate s
  = (mkStore (assign taskId task' (tasks s)) (nextId s),
     snd (editDate newDate (editName newName task)))
  /\ find_task taskId (tasks (fst (editTask taskId newName newDate s))) = Some task'.
Proof.
  intros Hf task'. unfold editTask. rewrite Hf.
  destruct (editDate newDate (editName newName task)) as [t al] eqn:E.
  subst task'. cbn [fst snd tasks]. split; [reflexivity|].
  apply (find_task_assign _ task); [exact Hf|].
  change t with (fst (t, al)). rewrite <- E, edited_id.
  apply find_task_In in Hf. tauto.
Qed.

End Editing.

(** C7: for every id in the store, an answer to the name prompt that is
    not empty after trimming becomes, trimmed, the name of the record,
    whatever the answer to the date prompt, and so also when that answer
    fails the shape test and [InvalidDateFormat] is raised; and whenever
    [InvalidDateFormat] is raised the record has the date it had. *)
Theorem edit_name_and_date_are_independent (s : Store) (taskId : Z) (task : Task) :
  find_task taskId (tasks s) = Some task ->
  (forall newName newDate,
      ~ blank newName ->
      exists task',
        find_task taskId (tasks (fst (editTask taskId (Some newName) newDate s)))
        = Some task'
        /\ name task' = trim newName)
  /\ (forall newName newDate,
         snd (editTask taskId newName newDate s) = Some InvalidDateFormat ->
         exists task',
           find_task taskId (tasks (fst (editTask taskId newName newDate s)))
           = Some task'
           /\ date task' = date task)
  /\ (forall newName d,
         ~ blank newName -> d <> "" -> d <> date task -> dateRegex_test d = false ->
         editTask taskId (Some newName) (Some d) s
         = (mkStore (assign taskId (set_name task (trim newName)) (tasks s)) (nextId s),
            Some InvalidDateFormat)).
Proof.
  intros Hf. split; [|split].
  - intros newName newDate Hn.
    destruct (editTask_found taskId (Some newName) newDate s task Hf) as [_ H].
    eexists. split; [exact H|].
    destruct (editDate_fields newDate (editName (Some newName) task)) as (_ & -> & _).
    now apply editName_applies.
  - intros newName newDate Hal.
    destruct (editTask_found taskId newName newDate s task Hf) as [E H].
    eexists. split; [exact H|].
    rewrite E in Hal. cbn [snd] in Hal.
    rewrite (editDate_rejected _ _ Hal). apply editName_fields.
  - intros newName d Hn Hd Hne Ht.
    destruct (editTask_found taskId (Some newName) (Some d) s task Hf) as [E _].
    rewrite E. clear E.
    assert (En : editName (Some newName) task = set_name task (trim newName)).
    { pose proof (editName_applies newName task Hn) as H. unfold editName in *.
      destruct (_ && _); [reflexivity|].
      destruct task as [i n dt c]. cbn in H. now subst n. }
    rewrite En, editDate_rejects; [reflexivity | assumption | assumption | assumption].
Qed.

(** The first museum is renamed although its new date is rejected. *)
Lemma edit_name_with_bad_date_on_seed :
  editTask 1 (Some " Archeologico ") (Some "15/02/2024") seed_store
  = (mkStore (assign 1 (new_Task 1 "Archeologico" "2024-02-15" false) (tasks seed_store)) 9,
     Some InvalidDateFormat).
Proof.
  apply (edit_name_and_date_are_independent seed_store 1
           (new_Task 1 "Museo Civico Archeologico" "2024-02-15" false) eq_refl).
  - discriminate.
  - discriminate.
  - discriminate.
  - reflexivity.
Defined.

(* ================================================================== *)
(** ** Clearing the list *)
(* ================================================================== *)

(** C8: on a store that is not empty a confirmed [clearAll] leaves no task
    and the counter at 1, so that the add of ["X"] on ["2025-01-01"] that
    follows makes a record with id 1; on an empty store [clearAll] raises
    [EmptyStore], whatever the answer to [confirm] would be, and changes
    nothing. *)
Theorem clearAll_resets_the_counter (s : Store) :
  (tasks s <> [] ->
   clearAll true s = (mkStore [] 1, None)
   /\ addTask "X" (Some "2025-01-01") (fst (clearAll true s))
      = (mkStore [new_Task 1 "X" "2025-01-01" false] 2, None))
  /\ (tasks s = [] -> forall confirmed, clearAll confirmed s = (s, Some EmptyStore)).
Proof.
  split.
  - intros H. unfold clearAll. destruct (tasks s); [contradiction|].
    split; reflexivity.
  - intros H confirmed. unfold clearAll. now rewrite H.
Qed.

(** [clearAll] on the seed store and on an empty one. *)
Lemma clearAll_on_seed_and_on_empty :
  (clearAll true seed_store = (mkStore [] 1, None)
   /\ addTask "X" (Some "2025-01-01") (fst (clearAll true seed_store))
      = (mkStore [new_Task 1 "X" "2025-01-01" false] 2, None))
  /\ clearAll true (mkStore [] 9) = (mkStore [] 9, Some EmptyStore).
Proof.
  split.
  - apply (clearAll_resets_the_counter seed_store). discriminate.
  - apply (clearAll_resets_the_counter (mkStore [] 9)). reflexivity.
Defined.

(* ================================================================== *)
(** ** The counter *)
(* ================================================================== *)

(** C10: in every store a session can be in the counter is greater than
    the id of every record; every operation keeps it so; and [removeTask]
    only drops records and leaves the counter as it is. *)
Theorem counter_above_every_id :
  (forall s, reachable s -> counter_above s)
  /\ (forall s a, counter_above s -> counter_above (step s a))
  /\ (forall s taskId confirmed,
         nextId (removeTask taskId confirmed s) = nextId s
         /\ (forall t, In t (tasks (removeTask taskId confirmed s)) -> In t (tasks s))
         /\ (confirmed = true ->
             tasks (removeTask taskId confirmed s)
             = filter (fun t => negb (id t =? taskId)) (tasks s))).
Proof.
  split; [|split].
  - intros s H. now apply reachable_invariant.
  - apply step_counter_above.
  - intros s taskId confirmed. unfold removeTask.
    destruct confirmed; cbn [tasks nextId]; repeat split; auto; try discriminate.
    intros t Ht. now apply filter_In in Ht.
Qed.

(** The counter after the last seed museum is removed, and after an add
    to a store of one task. *)
Lemma counter_above_after_remove :
  counter_above (step seed_store (RemoveTask 8 true))
  /\ counter_above (step (mkStore [new_Task 3 "Museo Morandi" "2025-01-01" false] 4)
                         (AddTask "Museo Ducati" (Some "2025-02-02"))).
Proof.
  split.
  - apply (proj1 counter_above_every_id).
    apply reachable_step, reachable_init.
  - apply (proj1 (proj2 counter_above_every_id)).
    repeat constructor.
Defined.

(* ================================================================== *)
(** ** The script with a Map does what the array script does *)
(* ================================================================== *)

Section MapContainer.

Lemma keys_are_ids (m : MapScript.TaskMap) :
  keyed_by_id m -> MapScript.Map_keys m = map id (MapScript.Map_values m).
Proof.
  unfold MapScript.Map_keys, MapScript.Map_values.
  induction 1 as [|e m He _ IH]; cbn [map]; congruence.
Qed.

Lemma Map_get_find (key : Z) (m : MapScript.TaskMap) :
  keyed_by_id m -> MapScript.Map_get key m = find_task key (MapScript.Map_values m).
Proof.
  unfold MapScript.Map_get, find_task, MapScript.Map_values.
  induction 1 as [|[k v] m He _ IH]; cbn [find map fst snd] in *; [reflexivity|].
  subst k. destruct (id v =? key); [reflexivity | exact IH].
Qed.

Lemma Map_values_assign (key : Z) (task' : Task) (m : MapScript.TaskMap) :
  keyed_by_id m ->
  MapScript.Map_values (MapScript.assign key task' m)
  = assign key task' (MapScript.Map_values m).
Proof.
  unfold MapScript.Map_values.
  induction 1 as [|[k v] m He _ IH]; cbn [MapScript.assign assign map fst snd] in *;
    [reflexivity|].
  subst k. destruct (id v =? key); cbn [map snd]; [reflexivity | now rewrite IH].
Qed.

Lemma keyed_assign (key : Z) (task' : Task) (m : MapScript.TaskMap) :
  id task' = key -> keyed_by_id m -> keyed_by_id (MapScript.assign key task' m).
Proof.
  intros Ht. unfold keyed_by_id.
  induction 1 as [|[k v] m He Hm IH]; cbn [MapScript.assign]; [constructor|].
  destruct (k =? key) eqn:E.
  - apply Z.eqb_eq in E. constructor; [cbn; congruence | exact Hm].
  - constructor; assumption.
Qed.

Lemma Map_values_delete (key : Z) (m : MapScript.TaskMap) :
  keyed_by_id m ->
  MapScript.Map_values (MapScript.Map_delete key m)
  = filter (fun t => negb (id t =? key)) (MapScript.Map_values m).
Proof.
  unfold MapScript.Map_values, MapScript.Map_delete.
  induction 1 as [|[k v] m He _ IH]; cbn [filter map fst snd] in *; [reflexivity|].
  subst k. destruct (id v =? key); cbn [negb map snd]; [exact IH | now rewrite IH].
Qed.

Lemma keyed_filter (f : Z * Task -> bool) (m : MapScript.TaskMap) :
  keyed_by_id m -> keyed_by_id (filter f m).
Proof.
  unfold keyed_by_id. rewrite !Forall_forall. intros H e He.
  apply filter_In in He. now apply H.
Qed.

Lemma Map_set_new (key : Z) (value : Task) (m : MapScript.TaskMap) :
  ~ In key (MapScript.Map_keys m) ->
  MapScript.Map_set key value m = m ++ [(key, value)].
Proof.
  unfold MapScript.Map_keys.
  induction m as [|[k v] m IH]; cbn [MapScript.Map_set map fst app In]; [reflexivity|].
  intros H. destruct (k =? key) eqn:E.
  - apply Z.eqb_eq in E. tauto.
  - rewrite IH; [reflexivity | tauto].
Qed.

Lemma Map_set_keys (key : Z) (value : Task) (m : MapScript.TaskMap) :
  MapScript.Map_keys (MapScript.Map_set key value m)
  = if existsb (Z.eqb key) (MapScript.Map_keys m)
    then MapScript.Map_keys m
    else MapScript.Map_keys m ++ [key].
Proof.
  unfold MapScript.Map_keys.
  induction m as [|[k v] m IH]; cbn [MapScript.Map_set map fst existsb app]; [reflexivity|].
  rewrite (Z.eqb_sym key k). destruct (k =? key) eqn:E; cbn [orb map fst].
  - apply Z.eqb_eq in E. now subst.
  - rewrite IH. now destruct (existsb _ _).
Qed.

Lemma keyed_set (key : Z) (value : Task) (m : MapScript.TaskMap) :
  key = id value -> keyed_by_id m -> keyed_by_id (MapScript.Map_set key value m).
Proof.
  intros Hk. unfold keyed_by_id.
  induction 1 as [|[k v] m He Hm IH]; cbn [MapScript.Map_set].
  - now repeat constructor.
  - destruct (k =? key); constructor; assumption.
Qed.

Lemma NoDup_set (key : Z) (value : Task) (m : MapScript.TaskMap) :
  NoDup (MapScript.Map_keys m) ->
  NoDup (MapScript.Map_keys (MapScript.Map_set key value m)).
Proof.
  intros H. rewrite Map_set_keys.
  destruct (existsb _ _) eqn:E; [exact H|].
  apply NoDup_app; [exact H | repeat constructor; easy |].
  intros k Hk [<-|[]].
  assert (existsb (Z.eqb key) (MapScript.Map_keys m) = true); [|congruence].
  apply existsb_exists. exists key. split; [exact Hk | apply Z.eqb_refl].
Qed.

Lemma Map_size_zero (m : MapScript.TaskMap) :
  (MapScript.Map_size m =? 0) = match m with [] => true | _ => false end.
Proof.
  destruct m; [reflexivity|]. unfold MapScript.Map_size. cbn [List.length].
  apply Z.eqb_neq. lia.
Qed.

Lemma push_loop_filter (f : Task -> bool) (l acc : list Task) :
  fold_left (fun filteredTasks task =>
               if f task then filteredTasks ++ [task] else filteredTasks) l acc
  = acc ++ filter f l.
Proof.
  revert acc. induction l as [|t l IH]; intros acc; cbn [fold_left filter].
  - now rewrite app_nil_r.
  - rewrite IH. destruct (f t); [now rewrite <- app_assoc | reflexivity].
Qed.

Lemma count_loop_filter (f : Task -> bool) (l : list Task) (n : Z) :
  fold_left (fun count task => if f task then count + 1 else count) l n
  = n + Z.of_nat (List.length (filter f l)).
Proof.
  revert n. induction l as [|t l IH]; intros n; cbn [fold_left filter List.length];
    [lia|].
  rewrite IH. destruct (f t); cbn [List.length]; lia.
Qed.

Lemma stats_loop (l : list Task) (n c : Z) :
  fold_left (fun counts task =>
               (fst counts + 1, if completed task then snd counts + 1 else snd counts))
            l (n, c)
  = (n + Z.of_nat (List.length l),
     c + Z.of_nat (List.length (filter (fun task => completed task) l))).
Proof.
  revert n c. induction l as [|t l IH]; intros n c; cbn [fold_left filter fst snd].
  - f_equal; cbn; lia.
  - rewrite IH. destruct (completed t); cbn [List.length]; f_equal; lia.
Qed.

End MapContainer.

Section MapLoops.

Lemma filter_filter {A : Type} (f g : A -> bool) (l : list A) :
  filter f (filter g l) = filter (fun x => g x && f x) l.
Proof.
  induction l as [|x l IH]; cbn [filter]; [reflexivity|].
  destruct (g x); cbn [filter andb]; [destruct (f x)|]; now rewrite IH.
Qed.

Lemma filter_all {A : Type} (l : list A) : filter (fun _ => true) l = l.
Proof. induction l as [|x l IH]; cbn [filter]; congruence. Qed.

Lemma delete_loop (l m : MapScript.TaskMap) :
  fold_left (fun m e => if completed (snd e) then MapScript.Map_delete (fst e) m else m) l m
  = filter (fun e' => negb (existsb (fun e => completed (snd e) && (fst e' =? fst e)) l)) m.
Proof.
  revert m. induction l as [|e l IH]; intros m; cbn [fold_left existsb].
  - cbn [negb]. now rewrite filter_all.
  - rewrite IH. destruct (completed (snd e)); cbn [andb orb]; [|reflexivity].
    unfold MapScript.Map_delete. rewrite filter_filter.
    apply filter_ext. intros e'. now rewrite negb_orb.
Qed.

Lemma entry_of_key (m : MapScript.TaskMap) (e e' : Z * Task) :
  NoDup (MapScript.Map_keys m) -> In e m -> In e' m -> fst e' = fst e -> e' = e.
Proof.
  unfold MapScript.Map_keys. induction m as [|x m IH]; cbn [map In]; [easy|].
  intros Hd. apply NoDup_cons_iff in Hd as [Hx Hd].
  intros [He|He] [He'|He'] Hk.
  - congruence.
  - subst x. exfalso. apply Hx. rewrite <- Hk. now apply in_map.
  - subst x. exfalso. apply Hx. rewrite Hk. now apply in_map.
  - now apply IH.
Qed.

Lemma delete_completed (m : MapScript.TaskMap) :
  NoDup (MapScript.Map_keys m) ->
  fold_left (fun m e => if completed (snd e) then MapScript.Map_delete (fst e) m else m) m m
  = filter (fun e => negb (completed (snd e))) m.
Proof.
  intros Hd. rewrite delete_loop. apply filter_ext_in. intros e' He'. f_equal.
  destruct (completed (snd e')) eqn:Ec.
  - apply existsb_exists. exists e'. now rewrite Ec, Z.eqb_refl.
  - destruct (existsb _ m) eqn:Ex; [|reflexivity].
    apply existsb_exists in Ex as (e & He & Hc).
    apply andb_true_iff in Hc as [Hc Hk]. apply Z.eqb_eq in Hk.
    rewrite (entry_of_key m e e' Hd He He' Hk) in Ec. congruence.
Qed.

Lemma Map_values_filter (f : Task -> bool) (m : MapScript.TaskMap) :
  MapScript.Map_values (filter (fun e => f (snd e)) m) = filter f (MapScript.Map_values m).
Proof.
  unfold MapScript.Map_values. induction m as [|e m IH]; cbn [filter map]; [reflexivity|].
  destruct (f (snd e)); cbn [map]; now rewrite IH.
Qed.

Lemma max_loop (l : list Z) (a : Z) :
  a <= fold_left (fun maxId id => if id >? maxId then id else maxId) l a
  /\ Forall (fun k => k <= fold_left (fun maxId id => if id >? maxId then id else maxId) l a) l.
Proof.
  revert a. induction l as [|k l IH]; intros a; cbn [fold_left].
  - split; [lia | constructor].
  - destruct (IH (if k >? a then k else a)) as [H1 H2].
    destruct (Z.gtb_spec k a); (split; [lia | constructor; [lia | assumption]]).
Qed.

End MapLoops.

(* ================================================================== *)
(** *** The two scripts, operation by operation *)
(* ================================================================== *)

Section Simulation.

Lemma consistent_array (s : MapScript.Store) :
  keyed_by_id (MapScript.tasksMap s) ->
  unique_ids (to_array s) -> counter_above (to_array s) -> consistent s.
Proof.
  intros Hk Hu Ha. unfold consistent. rewrite (keys_are_ids _ Hk).
  split; [exact Hk|]. split; [exact Hu|]. now apply counter_above_ids in Ha.
Qed.

Lemma array_consistent (s : MapScript.Store) :
  consistent s -> unique_ids (to_array s) /\ counter_above (to_array s).
Proof.
  intros (Hk & Hd & Hb). rewrite (keys_are_ids _ Hk) in Hd, Hb.
  split; [exact Hd | now apply counter_above_ids].
Qed.

Lemma counter_is_new (s : MapScript.Store) :
  consistent s -> ~ In (MapScript.nextId s) (MapScript.Map_keys (MapScript.tasksMap s)).
Proof.
  intros (_ & _ & Hb) Hin. rewrite Forall_forall in Hb. specialize (Hb _ Hin). lia.
Qed.

Lemma addTask_simulates (name : string) (date : option string) (s : MapScript.Store) :
  consistent s ->
  to_array (fst (MapScript.addTask name date s)) = fst (addTask name date (to_array s))
  /\ snd (MapScript.addTask name date s) = snd (addTask name date (to_array s))
  /\ keyed_by_id (MapScript.tasksMap (fst (MapScript.addTask name date s))).
Proof.
  intros Hc. pose proof Hc as (Hk & _). unfold MapScript.addTask, addTask.
  destruct (negb (truthy (trim name))); [now repeat split|].
  destruct (negb (truthy_opt date)); [now repeat split|].
  destruct date as [d|]; [|now repeat split].
  cbn [fst snd id MapScript.tasksMap]. rewrite (Map_set_new _ _ _ (counter_is_new s Hc)).
  repeat split.
  - unfold to_array, MapScript.Map_values. cbn [MapScript.tasksMap MapScript.nextId].
    now rewrite map_app.
  - apply Forall_app. split; [exact Hk | now repeat constructor].
Qed.

Lemma toggleDone_simulates (taskId : Z) (s : MapScript.Store) :
  keyed_by_id (MapScript.tasksMap s) ->
  to_array (MapScript.toggleDone taskId s) = toggleDone taskId (to_array s)
  /\ keyed_by_id (MapScript.tasksMap (MapScript.toggleDone taskId s)).
Proof.
  intros Hk. unfold MapScript.toggleDone, toggleDone.
  rewrite (Map_get_find _ _ Hk). cbn [to_array tasks].
  destruct (find_task taskId _) as [task|] eqn:E; [|now split].
  unfold to_array. cbn [MapScript.tasksMap MapScript.nextId nextId].
  rewrite (Map_values_assign _ _ _ Hk). split; [reflexivity|].
  apply keyed_assign; [|exact Hk]. apply find_task_In in E. cbn. tauto.
Qed.

Lemma removeTask_simulates (taskId : Z) (confirmed : bool) (s : MapScript.Store) :
  keyed_by_id (MapScript.tasksMap s) ->
  to_array (MapScript.removeTask taskId confirmed s) = removeTask taskId confirmed (to_array s)
  /\ keyed_by_id (MapScript.tasksMap (MapScript.removeTask taskId confirmed s)).
Proof.
  intros Hk. unfold MapScript.removeTask, removeTask.
  destruct confirmed; [|now split].
  unfold to_array. cbn [MapScript.tasksMap MapScript.nextId tasks nextId].
  rewrite (Map_values_delete _ _ Hk). split; [reflexivity | now apply keyed_filter].
Qed.

Lemma editTask_simulates (taskId : Z) (newName newDate : option string)
      (s : MapScript.Store) :
  keyed_by_id (MapScript.tasksMap s) ->
  to_array (fst (MapScript.editTask taskId newName newDate s))
  = fst (editTask taskId newName newDate (to_array s))
  /\ snd (MapScript.editTask taskId newName newDate s)
     = snd (editTask taskId newName newDate (to_array s))
  /\ keyed_by_id (MapScript.tasksMap (fst (MapScript.editTask taskId newName newDate s))).
Proof.
  intros Hk. unfold MapScript.editTask, editTask.
  rewrite (Map_get_find _ _ Hk). cbn [to_array tasks].
  destruct (find_task taskId _) as [task|] eqn:E; [|now repeat split].
  destruct (editDate newDate (editName newName task)) as [task' al] eqn:E'.
  unfold to_array. cbn [fst snd MapScript.tasksMap MapScript.nextId nextId].
  rewrite (Map_values_assign _ _ _ Hk). repeat split.
  apply keyed_assign; [|exact Hk].
  change task' with (fst (task', al)). rewrite <- E', edited_id.
  apply find_task_In in E. tauto.
Qed.

Lemma markAllAsCompleted_simulates (confirmed : bool) (s : MapScript.Store) :
  keyed_by_id (MapScript.tasksMap s) ->
  to_array (fst (MapScript.markAllAsCompleted confirmed s))
  = fst (markAllAsCompleted confirmed (to_array s))
  /\ snd (MapScript.markAllAsCompleted confirmed s)
     = snd (markAllAsCompleted confirmed (to_array s))
  /\ keyed_by_id (MapScript.tasksMap (fst (MapScript.markAllAsCompleted confirmed s))).
Proof.
  intros Hk. unfold MapScript.markAllAsCompleted, markAllAsCompleted.
  rewrite Map_size_zero. destruct s as [m n]. cbn [to_array tasks MapScript.tasksMap] in *.
  destruct m as [|e m]; [now repeat split|].
  cbn [MapScript.Map_values map]. destruct confirmed; [|now repeat split].
  unfold to_array, MapScript.Map_values.
  cbn [fst snd MapScript.tasksMap MapScript.nextId nextId tasks].
  repeat split.
  - f_equal. change (map snd (e :: m)) with (snd e :: map snd m).
    cbn [map fst snd]. f_equal. rewrite !map_map. reflexivity.
  - unfold keyed_by_id in *.
    change (Forall (fun e => fst e = id (snd e))
              (map (fun e => (fst e, set_completed (snd e) true)) (e :: m))).
    rewrite Forall_map. exact Hk.
Qed.

Lemma clearCompleted_simulates (confirmed : bool) (s : MapScript.Store) :
  keyed_by_id (MapScript.tasksMap s) ->
  NoDup (MapScript.Map_keys (MapScript.tasksMap s)) ->
  to_array (fst (MapScript.clearCompleted confirmed s))
  = fst (clearCompleted confirmed (to_array s))
  /\ snd (MapScript.clearCompleted confirmed s)
     = snd (clearCompleted confirmed (to_array s))
  /\ keyed_by_id (MapScript.tasksMap (fst (MapScript.clearCompleted confirmed s))).
Proof.
  intros Hk Hd. unfold MapScript.clearCompleted, clearCompleted.
  rewrite count_loop_filter. cbn [to_array tasks].
  destruct (filter _ (MapScript.Map_values (MapScript.tasksMap s))) as [|t l] eqn:E.
  - now repeat split.
  - replace (0 + Z.of_nat (List.length (t :: l)) =? 0) with false
      by (symmetry; apply Z.eqb_neq; cbn [List.length]; lia).
    destruct confirmed; [|now repeat split].
    rewrite (delete_completed _ Hd).
    unfold to_array. cbn [fst snd MapScript.tasksMap MapScript.nextId nextId tasks].
    rewrite (Map_values_filter (fun task => negb (completed task))).
    repeat split. now apply keyed_filter.
Qed.

Lemma clearAll_simulates (confirmed : bool) (s : MapScript.Store) :
  keyed_by_id (MapScript.tasksMap s) ->
  to_array (fst (MapScript.clearAll confirmed s)) = fst (clearAll confirmed (to_array s))
  /\ snd (MapScript.clearAll confirmed s) = snd (clearAll confirmed (to_array s))
  /\ keyed_by_id (MapScript.tasksMap (fst (MapScript.clearAll confirmed s))).
Proof.
  intros Hk. unfold MapScript.clearAll, clearAll. rewrite Map_size_zero.
  destruct s as [m n]. cbn [to_array tasks MapScript.tasksMap] in *.
  destruct m as [|e m]; cbn [MapScript.Map_values map].
  - repeat split. constructor.
  - destruct confirmed; cbn [fst snd MapScript.tasksMap]; repeat split;
      (exact Hk || constructor).
Qed.

Lemma init_consistent (s : MapScript.Store) :
  keyed_by_id (MapScript.tasksMap s) ->
  NoDup (MapScript.Map_keys (MapScript.tasksMap s)) ->
  consistent (MapScript.init s).
Proof.
  intros Hk Hd. unfold MapScript.init, forEach.
  set (f := fun tasksMap museum index => _).
  assert (H : forall l i m, keyed_by_id m -> NoDup (MapScript.Map_keys m) ->
                            keyed_by_id (forEach_from f i l m)
                            /\ NoDup (MapScript.Map_keys (forEach_from f i l m))).
  { induction l as [|museum l IH]; intros i m Hm Hn; cbn [forEach_from]; [now split|].
    apply IH; subst f; cbv beta zeta.
    - now apply keyed_set.
    - now apply NoDup_set. }
  destruct (H MapScript.initialMuseums 0 _ Hk Hd) as [Hk' Hd'].
  unfold consistent, MapScript.updateNextId. cbn [MapScript.tasksMap].
  destruct (MapScript.Map_size _ =? 0) eqn:E; cbn [MapScript.tasksMap MapScript.nextId].
  - rewrite Map_size_zero in E.
    destruct (forEach_from f 0 MapScript.initialMuseums (MapScript.tasksMap s));
      [|discriminate E].
    repeat split; constructor.
  - repeat split; [exact Hk' | exact Hd' |].
    destruct (max_loop (MapScript.Map_keys
                          (forEach_from f 0 MapScript.initialMuseums (MapScript.tasksMap s)))
                       0) as [_ Hm].
    eapply Forall_impl; [|exact Hm]. cbv beta. intros k Hle. lia.
Qed.

End Simulation.

(** On a map that is consistent every handler of the Map script leaves the
    tasks, in the order of the entries, and the counter that the handler of
    the array script leaves on the same tasks, and raises the same alert;
    and the map is consistent again. *)
Theorem map_script_simulates (s : MapScript.Store) (a : Action) :
  consistent s -> a <> Init ->
  to_array (MapScript.step s a) = step (to_array s) a
  /\ MapScript.raised s a = raised (to_array s) a
  /\ consistent (MapScript.step s a).
Proof.
  intros Hc Ha. pose proof Hc as (Hk & Hd & _).
  assert (H : to_array (MapScript.step s a) = step (to_array s) a
              /\ MapScript.raised s a = raised (to_array s) a
              /\ keyed_by_id (MapScript.tasksMap (MapScript.step s a))).
  { destruct a as [|n d|k|k c|k n d|c|c|c]; cbn [MapScript.step step MapScript.raised raised].
    - contradiction.
    - now apply addTask_simulates.
    - destruct (toggleDone_simulates k s Hk). auto.
    - destruct (removeTask_simulates k c s Hk). auto.
    - now apply editTask_simulates.
    - now apply markAllAsCompleted_simulates.
    - now apply clearCompleted_simulates.
    - now apply clearAll_simulates. }
  destruct H as (Hs & Hr & Hk'). split; [exact Hs|]. split; [exact Hr|].
  destruct (array_consistent s Hc) as [Hu Hb].
  apply consistent_array; [exact Hk' | |]; rewrite Hs.
  - now apply step_unique_ids.
  - now apply step_counter_above.
Qed.

(** What the Map script renders and counts is what the array script
    renders and counts on the same tasks. *)
Theorem map_script_reads (localeCompare : string -> string -> Z)
        (Date_valueOf : string -> option Z) (s : MapScript.Store) :
  (forall statusFilter searchInput sortBy,
      MapScript.render localeCompare Date_valueOf statusFilter searchInput sortBy s
      = render localeCompare Date_valueOf statusFilter searchInput sortBy (to_array s))
  /\ MapScript.updateStats s = updateStats (to_array s).
Proof.
  split.
  - intros. unfold MapScript.render, render. now rewrite push_loop_filter.
  - unfold MapScript.updateStats, updateStats. rewrite stats_loop.
    cbn [fst snd to_array tasks]. reflexivity.
Qed.

(** Every map of a session of the Map script is consistent: each task is
    under its own id, no id is there twice and the counter is above every
    id. *)
Theorem map_script_consistent (actions : list Action) :
  consistent (MapScript.run actions MapScript.seed_store).
Proof.
  assert (H : forall s, consistent s -> consistent (MapScript.run actions s)).
  { induction actions as [|a actions IH]; intros s Hs; [exact Hs|].
    cbn [MapScript.run fold_left]. apply IH.
    destruct a; try (apply map_script_simulates; [exact Hs | discriminate]).
    destruct Hs as (Hk & Hd & _). now apply init_consistent. }
  apply H. apply init_consistent; constructor.
Qed.

(** A session of the Map script after [init], seen as arrays, is the
    session of the array script from the tasks [init] set. *)
Theorem map_script_session (actions : list Action) (s : MapScript.Store) :
  consistent s -> ~ In Init actions ->
  to_array (MapScript.run actions s) = run actions (to_array s).
Proof.
  revert s. induction actions as [|a actions IH]; intros s Hs Hi; [reflexivity|].
  cbn [MapScript.run run fold_left].
  assert (Ha : a <> Init) by (intros ->; apply Hi; now left).
  destruct (map_script_simulates s a Hs Ha) as (E & _ & Hc).
  rewrite <- E. apply IH; [exact Hc|].
  intros H. apply Hi. now right.
Qed.

(** The dates of the Map script keep the shape under the same condition
    as those of the array script. *)
Theorem map_script_dates (actions : list Action) :
  Forall date_checked actions -> ~ In Init actions ->
  dates_well_formed (to_array (MapScript.run actions MapScript.seed_store)).
Proof.
  intros Hd Hi. rewrite map_script_session; [|apply (map_script_consistent [])|exact Hi].
  apply run_dates; [exact Hd|].
  unfold dates_well_formed.
  apply Forall_impl with (P := fun t => dateRegex_test (date t) = true).
  - intros t. apply dateRegex_test_sound.
  - cbv -[Z.add Z.lt]. repeat constructor.
Qed.

(* ================================================================== *)
(** ** Further properties of the handlers *)
(* ================================================================== *)

Section OneRecord.

Lemma assign_split (taskId : Z) (t : Task) (l : list Task) :
  find_task taskId l = Some t ->
  exists before after,
    l = before ++ t :: after
    /\ Forall (fun x => id x <> taskId) before
    /\ forall t', assign taskId t' l = before ++ t' :: after.
Proof.
  unfold find_task. induction l as [|x l IH]; cbn [find assign]; [discriminate|].
  destruct (id x =? taskId) eqn:E.
  - intros H. injection H as ->. exists [], l. repeat split. constructor.
  - intros H. destruct (IH H) as (before & after & -> & Hb & Ha).
    exists (x :: before), after. repeat split.
    + constructor; [now apply Z.eqb_neq | exact Hb].
    + intros t'. cbn [app]. now rewrite Ha.
Qed.

Lemma assign_found (taskId : Z) (t : Task) (l : list Task) :
  find_task taskId l = Some t -> assign taskId t l = l.
Proof.
  intros H. destruct (assign_split _ _ _ H) as (before & after & E & _ & Ha).
  now rewrite Ha.
Qed.

Lemma assign_twice (taskId : Z) (a b : Task) (l : list Task) :
  id a = taskId -> assign taskId b (assign taskId a l) = assign taskId b l.
Proof.
  intros Ha. induction l as [|x l IH]; cbn [assign]; [reflexivity|].
  destruct (id x =? taskId) eqn:E; cbn [assign].
  - now rewrite Ha, Z.eqb_refl.
  - now rewrite E, IH.
Qed.

Lemma find_task_absent (taskId : Z) (l : list Task) :
  ~ In taskId (map id l) -> find_task taskId l = None.
Proof.
  intros H. destruct (find_task taskId l) as [t|] eqn:E; [|reflexivity].
  apply find_task_In in E as [Hin <-]. exfalso. apply H. now apply in_map.
Qed.

Lemma filter_others (taskId : Z) (l : list Task) :
  Forall (fun x => id x <> taskId) l ->
  filter (fun t => negb (id t =? taskId)) l = l.
Proof.
  induction 1 as [|x l Hx _ IH]; cbn [filter]; [reflexivity|].
  apply Z.eqb_neq in Hx. rewrite Hx. cbn [negb]. now rewrite IH.
Qed.

Lemma completed_twice (t : Task) :
  set_completed (set_completed t (negb (completed t)))
                (negb (completed (set_completed t (negb (completed t))))) = t.
Proof. destruct t as [i n d c]. cbn. now rewrite negb_involutive. Qed.

End OneRecord.

(** X1: toggling the same id twice gives back the store, whichever store
    and id. *)
Theorem toggleDone_twice (taskId : Z) (s : Store) :
  toggleDone taskId (toggleDone taskId s) = s.
Proof.
  unfold toggleDone at 2.
  destruct (find_task taskId (tasks s)) as [t|] eqn:E.
  - unfold toggleDone. cbn [tasks nextId].
    assert (Hid : id (set_completed t (negb (completed t))) = taskId).
    { apply find_task_In in E. cbn. tauto. }
    rewrite (find_task_assign _ _ _ _ E Hid), (assign_twice _ _ _ _ Hid).
    rewrite completed_twice, (assign_found _ _ _ E). now destruct s.
  - unfold toggleDone. now rewrite E.
Qed.

(** X2: when the id is in the store, [toggleDone] changes the first record
    with that id and nothing else, and of that record only the flag: the
    total of the dashboard stays, the number visited moves by one. *)
Theorem toggleDone_changes_one_flag (taskId : Z) (s : Store) (t : Task) :
  find_task taskId (tasks s) = Some t ->
  (exists before after,
      tasks s = before ++ t :: after
      /\ tasks (toggleDone taskId s)
         = before ++ new_Task (id t) (name t) (date t) (negb (completed t)) :: after)
  /\ nextId (toggleDone taskId s) = nextId s
  /\ totalCount (updateStats (toggleDone taskId s)) = totalCount (updateStats s)
  /\ completedCount (updateStats (toggleDone taskId s))
     = completedCount (updateStats s) + (if completed t then -1 else 1).
Proof.
  intros E. destruct (assign_split _ _ _ E) as (before & after & El & _ & Ha).
  unfold toggleDone. rewrite E. cbn [tasks nextId].
  split; [|split; [reflexivity|]].
  - exists before, after. split; [exact El | apply Ha].
  - unfold updateStats. cbn [totalCount completedCount tasks].
    rewrite Ha, El, !filter_app, !length_app. cbn [filter List.length set_completed completed].
    destruct (completed t); cbn [negb List.length]; split; lia.
Qed.

(** The second seed museum, visited, becomes one to visit. *)
Lemma toggleDone_on_seed :
  completedCount (updateStats (toggleDone 2 seed_store)) = 1
  /\ totalCount (updateStats (toggleDone 2 seed_store)) = 8.
Proof.
  destruct (toggleDone_changes_one_flag 2 seed_store
              (new_Task 2 "Pinacoteca Nazionale di Bologna" "2024-02-20" true) eq_refl)
    as (_ & _ & Ht & Hc).
  split; [exact Hc | exact Ht].
Defined.

(** X3: a confirmed [removeTask] leaves no record with that id and keeps
    every other record in its place; a second removal of the id changes
    nothing more, and neither does a removal the user declines or one of
    an id that is not in the store. *)
Theorem removeTask_removes_the_id (taskId : Z) (s : Store) :
  find_task taskId (tasks (removeTask taskId true s)) = None
  /\ (forall t, In t (tasks (removeTask taskId true s)) <-> In t (tasks s) /\ id t <> taskId)
  /\ removeTask taskId true (removeTask taskId true s) = removeTask taskId true s
  /\ removeTask taskId false s = s
  /\ (~ In taskId (map id (tasks s)) -> forall confirmed, removeTask taskId confirmed s = s).
Proof.
  assert (Hgone : Forall (fun x => id x <> taskId)
                         (filter (fun t => negb (id t =? taskId)) (tasks s))).
  { apply Forall_forall. intros x Hx. apply filter_In in Hx as [_ Hx].
    apply negb_true_iff in Hx. now apply Z.eqb_neq. }
  split; [|split; [|split; [|split]]].
  - apply find_task_absent. cbn [removeTask tasks]. intros H.
    apply in_map_iff in H as (x & Hx & Hin).
    rewrite Forall_forall in Hgone. now apply (Hgone x).
  - intros t. cbn [removeTask tasks]. rewrite filter_In, negb_true_iff, Z.eqb_neq. tauto.
  - unfold removeTask. cbn [tasks nextId]. now rewrite (filter_others _ _ Hgone).
  - reflexivity.
  - intros H confirmed. destruct confirmed; [|reflexivity].
    unfold removeTask. rewrite filter_others; [now destruct s|].
    apply Forall_forall. intros x Hx E. apply H. rewrite <- E. now apply in_map.
Qed.

(** Nothing has the id 20 in the seed store. *)
Lemma removeTask_absent_on_seed : removeTask 20 true seed_store = seed_store.
Proof.
  apply (removeTask_removes_the_id 20 seed_store).
  cbv. intros H. repeat (destruct H as [H|H]; [discriminate H|]). exact H.
Defined.

Section Bulk.

Lemma filter_none (f : Task -> bool) (l : list Task) :
  Forall (fun t => f t = false) l -> filter f l = [].
Proof.
  induction 1 as [|x l Hx _ IH]; cbn [filter]; [reflexivity|]. now rewrite Hx.
Qed.

Lemma filter_every (f : Task -> bool) (l : list Task) :
  Forall (fun t => f t = true) l -> filter f l = l.
Proof.
  induction 1 as [|x l Hx _ IH]; cbn [filter]; [reflexivity|]. now rewrite Hx, IH.
Qed.

Lemma filter_idempotent (f : Task -> bool) (l : list Task) :
  filter f (filter f l) = filter f l.
Proof.
  apply filter_every, Forall_forall. intros t Ht. now apply filter_In in Ht.
Qed.

Lemma markAllAsCompleted_confirmed (s : Store) :
  fst (markAllAsCompleted true s)
  = mkStore (map (fun task => set_completed task true) (tasks s)) (nextId s).
Proof.
  unfold markAllAsCompleted. destruct s as [l n]. cbn [tasks nextId].
  destruct l; reflexivity.
Qed.

Lemma clearCompleted_confirmed (s : Store) :
  fst (clearCompleted true s)
  = mkStore (filter (fun task => negb (completed task)) (tasks s)) (nextId s).
Proof.
  unfold clearCompleted.
  destruct (filter (fun task => completed task) (tasks s)) as [|t l] eqn:E;
    [|reflexivity].
  cbn [fst]. destruct s as [l n]. cbn [tasks nextId] in *. f_equal.
  symmetry. apply filter_every, Forall_forall. intros t Ht.
  destruct (completed t) eqn:Ec; [|reflexivity].
  assert (Hin : In t (filter (fun task => completed task) l))
    by (apply filter_In; auto).
  rewrite E in Hin. destruct Hin.
Qed.

End Bulk.

(** X4: a confirmed [markAllAsCompleted] marks every record visited and
    changes no id, name or date and not the counter, so that the dashboard
    shows nothing left to visit; doing it again changes nothing; declined,
    it changes nothing; and on an empty store it raises its alert without
    asking. *)
Theorem markAllAsCompleted_marks_all (s : Store) :
  Forall (fun t => completed t = true) (tasks (fst (markAllAsCompleted true s)))
  /\ map id (tasks (fst (markAllAsCompleted true s))) = map id (tasks s)
  /\ map name (tasks (fst (markAllAsCompleted true s))) = map name (tasks s)
  /\ map date (tasks (fst (markAllAsCompleted true s))) = map date (tasks s)
  /\ nextId (fst (markAllAsCompleted true s)) = nextId s
  /\ pendingCount (updateStats (fst (markAllAsCompleted true s))) = 0
  /\ fst (markAllAsCompleted true (fst (markAllAsCompleted true s)))
     = fst (markAllAsCompleted true s)
  /\ fst (markAllAsCompleted false s) = s
  /\ (snd (markAllAsCompleted true s) = Some NoMuseums <-> tasks s = []).
Proof.
  rewrite !markAllAsCompleted_confirmed. cbn [tasks nextId].
  repeat split.
  - rewrite Forall_map. apply Forall_forall. reflexivity.
  - now rewrite map_map.
  - now rewrite map_map.
  - now rewrite map_map.
  - rewrite pendingCount_counts. cbn [tasks].
    rewrite filter_none; [reflexivity|].
    rewrite Forall_map. apply Forall_forall. reflexivity.
  - f_equal. rewrite map_map. apply map_ext. intros t. reflexivity.
  - unfold markAllAsCompleted. now destruct (tasks s).
  - unfold markAllAsCompleted. destruct (tasks s); [reflexivity | discriminate].
  - intros H. unfold markAllAsCompleted. now rewrite H.
Qed.

(** X5: a confirmed [clearCompleted] keeps exactly the records to visit,
    in their order, and the counter; afterwards the dashboard shows no
    visited museum and a second call finds nothing to clear.  The alert is
    raised exactly when no record is completed, and then nothing changes. *)
Theorem clearCompleted_keeps_the_pending (s : Store) :
  tasks (fst (clearCompleted true s)) = filter (fun t => negb (completed t)) (tasks s)
  /\ nextId (fst (clearCompleted true s)) = nextId s
  /\ completedCount (updateStats (fst (clearCompleted true s))) = 0
  /\ totalCount (updateStats (fst (clearCompleted true s))) = pendingCount (updateStats s)
  /\ (forall confirmed,
         clearCompleted confirmed (fst (clearCompleted true s))
         = (fst (clearCompleted true s), Some NothingToClear))
  /\ (forall confirmed,
         snd (clearCompleted confirmed s) = Some NothingToClear
         <-> Forall (fun t => completed t = false) (tasks s))
  /\ (forall confirmed,
         snd (clearCompleted confirmed s) = Some NothingToClear ->
         fst (clearCompleted confirmed s) = s)
  /\ fst (clearCompleted false s) = s.
Proof.
  assert (Hnone : filter (fun task => completed task)
                         (filter (fun task => negb (completed task)) (tasks s)) = []).
  { apply filter_none, Forall_forall. intros t Ht.
    apply filter_In in Ht as [_ Ht]. now apply negb_true_iff. }
  rewrite !clearCompleted_confirmed. cbn [tasks nextId].
  split; [reflexivity|]. split; [reflexivity|].
  split; [|split; [|split; [|split; [|split]]]].
  - unfold updateStats. cbn [completedCount tasks]. now rewrite Hnone.
  - rewrite pendingCount_counts. reflexivity.
  - intros confirmed. unfold clearCompleted. cbn [tasks]. now rewrite Hnone.
  - intros confirmed. unfold clearCompleted.
    destruct (filter (fun task => completed task) (tasks s)) as [|t l] eqn:E.
    + split; [intros _|reflexivity].
      apply Forall_forall. intros t Ht.
      destruct (completed t) eqn:Ec; [|reflexivity].
      assert (Hin : In t (filter (fun task => completed task) (tasks s)))
        by (apply filter_In; auto).
      rewrite E in Hin. destruct Hin.
    + split; [destruct confirmed; discriminate|].
      intros H. pose proof (filter_none (fun task => completed task) _ H) as E0.
      congruence.
  - intros confirmed. unfold clearCompleted.
    destruct (filter (fun task => completed task) (tasks s)); [reflexivity|].
    destruct confirmed; discriminate.
  - unfold clearCompleted.
    now destruct (filter (fun task => completed task) (tasks s)).
Qed.

(** X6: marking every museum visited and then clearing the visited ones
    empties a store that was not empty like [clearAll] does, but leaves the
    counter where it was, whereas [clearAll] sets it back to 1. *)
Theorem markAll_then_clearCompleted_keeps_the_counter (s : Store) :
  tasks s <> [] ->
  clearCompleted true (fst (markAllAsCompleted true s)) = (mkStore [] (nextId s), None)
  /\ clearAll true s = (mkStore [] 1, None).
Proof.
  intros H. split.
  - rewrite markAllAsCompleted_confirmed. unfold clearCompleted. cbn [tasks nextId].
    rewrite filter_every, filter_none.
    + destruct (tasks s); [contradiction | reflexivity].
    + rewrite Forall_map. apply Forall_forall. reflexivity.
    + rewrite Forall_map. apply Forall_forall. reflexivity.
  - unfold clearAll. destruct (tasks s); [contradiction | reflexivity].
Qed.

(** On the seed store the counter stays at 9. *)
Lemma markAll_then_clearCompleted_on_seed :
  clearCompleted true (fst (markAllAsCompleted true seed_store)) = (mkStore [] 9, None)
  /\ clearAll true seed_store = (mkStore [] 1, None).
Proof.
  apply (markAll_then_clearCompleted_keeps_the_counter seed_store). discriminate.
Defined.

(** X7: an accepted add followed by the removal of the id it gave leaves
    the tasks that were there, in their places; the counter has moved on,
    so the id is not given again. *)
Theorem add_then_remove (name date : string) (s : Store) :
  counter_above s -> ~ blank name -> date <> "" ->
  removeTask (nextId s) true (fst (addTask name (Some date) s))
  = mkStore (tasks s) (nextId s + 1).
Proof.
  intros Ha Hn Hd. rewrite (addTask_accepted _ _ _ Hn Hd).
  unfold removeTask. cbn [fst tasks nextId]. f_equal.
  rewrite filter_app. cbn [filter id]. rewrite Z.eqb_refl. cbn [negb].
  rewrite app_nil_r. apply filter_others.
  eapply Forall_impl; [|exact Ha]. cbv beta. intros t Ht. lia.
Qed.

(** A ninth museum is added to the seed store and removed again. *)
Lemma add_then_remove_on_seed :
  removeTask 9 true (fst (addTask "Museo Morandi" (Some "2025-01-01") seed_store))
  = mkStore (tasks seed_store) 10.
Proof.
  apply (add_then_remove "Museo Morandi" "2025-01-01" seed_store).
  - apply init_above.
  - discriminate.
  - discriminate.
Defined.

Section Counter.

Lemma Math_max_In (xs : list Z) (x : Z) : In (Math_max x xs) (x :: xs).
Proof.
  unfold Math_max. revert x. induction xs as [|y xs IH]; intros x; cbn [fold_left].
  - now left.
  - destruct (IH (Z.max x y)) as [H|H].
    + rewrite <- H. destruct (Z.max_spec x y) as [[_ E]|[_ E]]; rewrite E; cbn; auto.
    + right. now right.
Qed.

Lemma step_keeps_counter (s : Store) (a : Action) :
  keeps_counter a ->
  nextId s <= nextId (step s a)
  /\ forall k, In k (map id (tasks (step s a))) ->
               In k (map id (tasks s)) \/ k = nextId s.
Proof.
  intros [Hi Hc].
  destruct a as [|n d|k|k c|k n d|c|c|c]; cbn [step].
  - congruence.
  - destruct (addTask_cases n d s) as [E|[E|(d' & -> & Hn & Hd)]].
    + rewrite E. cbn [fst]. split; [lia | auto].
    + rewrite E. cbn [fst]. split; [lia | auto].
    + rewrite (addTask_accepted _ _ _ Hn Hd). cbn [fst tasks nextId].
      split; [lia|]. intros k. rewrite map_app, in_app_iff. cbn. intuition.
  - unfold toggleDone. destruct (find_task k (tasks s)) as [t|] eqn:Ef.
    + cbn [tasks nextId]. split; [lia|]. intros i.
      rewrite map_id_assign; [auto|]. apply find_task_In in Ef. cbn. tauto.
    + split; [lia | auto].
  - unfold removeTask. destruct c; cbn [tasks nextId]; (split; [lia|]); [|auto].
    intros i Hin. left. apply in_map_iff in Hin as (x & <- & Hx).
    apply filter_In in Hx. now apply in_map.
  - unfold editTask. destruct (find_task k (tasks s)) as [t|] eqn:Ef.
    + destruct (editDate d (editName n t)) as [t' al] eqn:E'. cbn [fst tasks nextId].
      split; [lia|]. intros i. rewrite map_id_assign; [auto|].
      change t' with (fst (t', al)). rewrite <- E', edited_id.
      apply find_task_In in Ef. tauto.
    + cbn [fst]. split; [lia | auto].
  - destruct c.
    + rewrite markAllAsCompleted_confirmed. cbn [tasks nextId]. split; [lia|].
      intros i. rewrite map_map. cbn [set_completed id]. auto.
    + assert (E : fst (markAllAsCompleted false s) = s)
        by (unfold markAllAsCompleted; now destruct (tasks s)).
      rewrite E. split; [lia | auto].
  - destruct c.
    + rewrite clearCompleted_confirmed. cbn [tasks nextId]. split; [lia|].
      intros i Hin. left. apply in_map_iff in Hin as (x & <- & Hx).
      apply filter_In in Hx. now apply in_map.
    + unfold clearCompleted. destruct (filter (fun task => completed task) (tasks s));
        cbn [fst]; (split; [lia | auto]).
  - destruct c; [congruence|].
    assert (E : fst (clearAll false s) = s)
      by (unfold clearAll; now destruct (tasks s)).
    rewrite E. split; [lia | auto].
Qed.

End Counter.

(** X8: as long as the page is not initialised again and the list is not
    cleared with [clearAll], the counter never goes down and an id below
    it that is not in the store, such as the id of a removed record, never
    comes back, whatever is added, edited, toggled or removed. *)
Theorem ids_are_not_given_twice (actions : list Action) (s : Store) (k : Z) :
  Forall keeps_counter actions ->
  k < nextId s -> ~ In k (map id (tasks s)) ->
  nextId s <= nextId (run actions s)
  /\ ~ In k (map id (tasks (run actions s))).
Proof.
  revert s. induction actions as [|a actions IH]; intros s Ha Hk Hn.
  - split; [cbn; lia | exact Hn].
  - inversion Ha as [|? ? Hka Hrest]; subst. cbn [run fold_left].
    destruct (step_keeps_counter s a Hka) as [Hle Hids].
    destruct (IH (step s a) Hrest) as [H1 H2].
    + lia.
    + intros Hin. destruct (Hids _ Hin) as [H|H]; [contradiction | lia].
    + split; [fold (run actions (step s a)); lia | exact H2].
Qed.

(** The fourth seed museum is removed; two adds, an edit and a declined
    [clearAll] later no record has the id 4. *)
Lemma ids_are_not_given_twice_after_seed :
  ~ In 4 (map id (tasks (run [AddTask "Museo Morandi" (Some "2025-01-01");
                             EditTask 9 (Some "Casa Morandi") None;
                             ClearAll false;
                             AddTask "Museo Ducati" (Some "2025-02-02")]
                            (removeTask 4 true seed_store)))).
Proof.
  apply (ids_are_not_given_twice _ (removeTask 4 true seed_store) 4).
  - repeat first [apply Forall_nil | apply Forall_cons]; split; discriminate.
  - reflexivity.
  - cbv. intros H. repeat (destruct H as [H|H]; [discriminate H|]). exact H.
Defined.

(** X9: [updateNextId] leaves the tasks alone and sets the counter to 1
    when there is none, and otherwise to one more than the greatest id:
    one more than an id of the store, and above every id. *)
Theorem updateNextId_is_greatest_id_plus_one (s : Store) :
  tasks (updateNextId s) = tasks s
  /\ (tasks s = [] -> nextId (updateNextId s) = 1)
  /\ (tasks s <> [] ->
      In (nextId (updateNextId s) - 1) (map id (tasks s))
      /\ Forall (fun t => id t <= nextId (updateNextId s) - 1) (tasks s)).
Proof.
  unfold updateNextId. destruct (map id (tasks s)) as [|x xs] eqn:E; cbn [tasks nextId].
  - split; [reflexivity|]. split; [reflexivity|].
    intros H. destruct (tasks s); [contradiction | discriminate E].
  - split; [reflexivity|]. split.
    + intros H. rewrite H in E. discriminate E.
    + intros _. replace (Math_max x xs + 1 - 1) with (Math_max x xs) by lia. split.
      * apply Math_max_In.
      * destruct (Math_max_ge xs x) as [Hx Hxs].
        rewrite <- Forall_map with (f := id) (P := fun i => i <= Math_max x xs), E.
        now constructor.
Qed.

(** With the ids 3, 7 and 5 in the store the counter becomes 8. *)
Lemma updateNextId_of_three :
  nextId (updateNextId (mkStore [new_Task 3 "a" "2025-01-01" false;
                                 new_Task 7 "b" "2025-01-02" true;
                                 new_Task 5 "c" "2025-01-03" false] 1)) - 1 = 7.
Proof.
  pose proof (updateNextId_is_greatest_id_plus_one
                (mkStore [new_Task 3 "a" "2025-01-01" false;
                          new_Task 7 "b" "2025-01-02" true;
                          new_Task 5 "c" "2025-01-03" false] 1)) as (_ & _ & H).
  destruct H as [Hin Hall]; [discriminate|].
  cbn [tasks map id] in Hin.
  apply Forall_inv_tail, Forall_inv in Hall. cbn [id] in Hall.
  destruct Hin as [H|[H|[H|[]]]]; lia.
Defined.

Section EditNoOp.

Lemma editName_unchanged (newName : option string) (task : Task) :
  newName = None \/ (exists n, newName = Some n /\ (blank n \/ trim n = name task)) ->
  editName newName task = task.
Proof.
  unfold editName. intros [-> | (n & -> & [H|H])]; [reflexivity| |].
  - unfold blank in H. rewrite H. cbn [truthy String.eqb negb andb].
    now rewrite andb_false_r.
  - apply String.eqb_eq in H. rewrite H. cbn [negb]. now rewrite andb_false_r.
Qed.

Lemma editDate_unchanged (newDate : option string) (task : Task) :
  newDate = None \/ newDate = Some "" \/ newDate = Some (date task) ->
  editDate newDate task = (task, None).
Proof.
  unfold editDate. intros [-> | [-> | ->]]; [reflexivity|reflexivity|].
  rewrite String.eqb_refl. cbn [negb]. now rewrite andb_false_r.
Qed.

End EditNoOp.

(** X10: [editTask] changes nothing and raises nothing when the id is not
    in the store, whatever the answers would be; and when it is, if the
    name prompt is cancelled or answered with blanks or with the name as it
    is, and the date prompt is cancelled or answered with nothing or with
    the date as it is. *)
Theorem editTask_leaves_the_store (taskId : Z) (newName newDate : option string)
        (s : Store) :
  (find_task taskId (tasks s) = None -> editTask taskId newName newDate s = (s, None))
  /\ (forall task,
         find_task taskId (tasks s) = Some task ->
         newName = None
         \/ (exists n, newName = Some n /\ (blank n \/ trim n = name task)) ->
         newDate = None \/ newDate = Some "" \/ newDate = Some (date task) ->
         editTask taskId newName newDate s = (s, None)).
Proof.
  split.
  - intros H. unfold editTask. now rewrite H.
  - intros task Hf Hn Hd. unfold editTask. rewrite Hf.
    rewrite (editName_unchanged _ _ Hn), (editDate_unchanged _ _ Hd).
    rewrite (assign_found _ _ _ Hf). now destruct s.
Qed.

(** An id that is not in the seed store, and the first seed museum with a
    blank name and its own date. *)
Lemma editTask_leaves_the_seed_store :
  editTask 20 (Some "Museo Morandi") (Some "2025-01-01") seed_store = (seed_store, None)
  /\ editTask 1 (Some "   ") (Some "2024-02-15") seed_store = (seed_store, None).
Proof.
  split.
  - apply (editTask_leaves_the_store 20 _ _ seed_store). reflexivity.
  - apply (proj2 (editTask_leaves_the_store 1 (Some "   ") (Some "2024-02-15") seed_store)
                 (new_Task 1 "Museo Civico Archeologico" "2024-02-15" false)).
    + reflexivity.
    + right. exists "   ". split; [reflexivity | left; reflexivity].
    + right; right. reflexivity.
Defined.

(** X11: whatever the two answers, [editTask] changes no id, no flag, not
    the order or the number of the records and not the counter; a record
    other than the first one with the id is as it was. *)
Theorem editTask_touches_one_record (taskId : Z) (newName newDate : option string)
        (s : Store) :
  map id (tasks (fst (editTask taskId newName newDate s))) = map id (tasks s)
  /\ map completed (tasks (fst (editTask taskId newName newDate s)))
     = map completed (tasks s)
  /\ nextId (fst (editTask taskId newName newDate s)) = nextId s
  /\ updateStats (fst (editTask taskId newName newDate s)) = updateStats s
  /\ (forall t, In t (tasks (fst (editTask taskId newName newDate s))) ->
                In t (tasks s) \/ find_task taskId (tasks (fst (editTask taskId newName newDate s))) = Some t).
Proof.
  unfold editTask. destruct (find_task taskId (tasks s)) as [task|] eqn:Hf.
  - destruct (editDate newDate (editName newName task)) as [task' al] eqn:E.
    cbn [fst tasks nextId].
    assert (Hid : id task' = taskId).
    { change task' with (fst (task', al)). rewrite <- E, edited_id.
      apply find_task_In in Hf. tauto. }
    assert (Hc : completed task' = completed task).
    { change task' with (fst (task', al)). rewrite <- E.
      destruct (editDate_fields newDate (editName newName task)) as (_ & _ & ->).
      apply editName_fields. }
    destruct (assign_split _ _ _ Hf) as (before & after & El & _ & Ha).
    assert (Hm : map completed (assign taskId task' (tasks s)) = map completed (tasks s)).
    { rewrite Ha, El, !map_app. cbn [map]. now rewrite Hc. }
    split; [now apply map_id_assign|]. split; [exact Hm|]. split; [reflexivity|].
    split.
    + unfold updateStats. cbn [tasks].
      rewrite Ha, El, !filter_app, !length_app. cbn [filter List.length].
      rewrite Hc. now destruct (completed task).
    + intros t Ht. apply In_assign in Ht as [->|Ht]; [right | now left].
      now apply (find_task_assign _ task).
  - cbn [fst]. repeat split. auto.
Qed.

(** X12: for an id in the store and an answer to the date prompt that is
    not empty and not the date as it is, [editTask] sets the date and is
    silent when the answer has the shape [^\d{4}-\d{2}-\d{2}$], whether or
    not it names a day of the calendar, and raises [InvalidDateFormat] and
    keeps the date when it has not; whatever the answer to the name
    prompt. *)
Theorem editTask_date_outcome (taskId : Z) (newName : option string) (d : string)
        (s : Store) (task : Task) :
  find_task taskId (tasks s) = Some task -> d <> "" -> d <> date task ->
  exists task',
    find_task taskId (tasks (fst (editTask taskId newName (Some d) s))) = Some task'
    /\ (date_pattern d ->
        snd (editTask taskId newName (Some d) s) = None /\ date task' = d)
    /\ (~ date_pattern d ->
        snd (editTask taskId newName (Some d) s) = Some InvalidDateFormat
        /\ date task' = date task).
Proof.
  intros Hf Hd Hne.
  destruct (editTask_found taskId newName (Some d) s task Hf) as [E H].
  eexists. split; [exact H|]. rewrite E. cbn [snd]. clear E H.
  destruct (editName_fields newName task) as (_ & Hdate & _).
  unfold editDate. rewrite Hdate.
  apply truthy_true in Hd. apply String.eqb_neq in Hne. rewrite Hd, Hne. cbn [negb andb].
  destruct (dateRegex_test d) eqn:Et; cbn [fst snd set_date date].
  - split; [auto|]. intros Hn. exfalso. apply Hn. now apply dateRegex_test_sound.
  - split; [|auto]. intros Hp. apply dateRegex_test_complete in Hp. congruence.
Qed.

(** The first seed museum takes the thirtieth of February and refuses a
    date written with slashes. *)
Lemma editTask_date_outcome_on_seed :
  (exists task',
      find_task 1 (tasks (fst (editTask 1 None (Some "2025-02-30") seed_store))) = Some task'
      /\ snd (editTask 1 None (Some "2025-02-30") seed_store) = None
      /\ date task' = "2025-02-30")
  /\ (exists task',
         find_task 1 (tasks (fst (editTask 1 None (Some "30/02/2025") seed_store)))
         = Some task'
         /\ snd (editTask 1 None (Some "30/02/2025") seed_store) = Some InvalidDateFormat
         /\ date task' = "2024-02-15").
Proof.
  split.
  - destruct (editTask_date_outcome 1 None "2025-02-30" seed_store
                (new_Task 1 "Museo Civico Archeologico" "2024-02-15" false) eq_refl)
      as (task' & Hf & Hok & _); [discriminate | discriminate |].
    exists task'. split; [exact Hf|]. apply Hok.
    apply dateRegex_test_sound. reflexivity.
  - destruct (editTask_date_outcome 1 None "30/02/2025" seed_store
                (new_Task 1 "Museo Civico Archeologico" "2024-02-15" false) eq_refl)
      as (task' & Hf & _ & Hbad); [discriminate | discriminate |].
    exists task'. split; [exact Hf|]. apply Hbad.
    intros Hp. apply dateRegex_test_complete in Hp. discriminate Hp.
Defined.

(* ================================================================== *)
(** ** The stored names *)
(* ================================================================== *)

Section Trimming.

Lemma trimStart_head (s : string) :
  trimStart s = "" \/ exists c r, trimStart s = String c r /\ isWhiteSpace c = false.
Proof.
  induction s as [|c r IH]; cbn [trimStart]; [now left|].
  destruct (isWhiteSpace c) eqn:E; [exact IH|]. right. now exists c, r.
Qed.

Lemma trimEnd_head (c : ascii) (r : string) :
  isWhiteSpace c = false -> exists r', trimEnd (String c r) = String c r'.
Proof.
  intros H. cbn [trimEnd]. destruct (trimEnd r); rewrite ?H; eauto.
Qed.

Lemma trimEnd_cons (c c' : ascii) (r r' : string) :
  trimEnd r = String c' r' -> trimEnd (String c r) = String c (String c' r').
Proof. intros H. cbn [trimEnd]. now rewrite H. Qed.

Lemma trimEnd_idempotent (s : string) : trimEnd (trimEnd s) = trimEnd s.
Proof.
  induction s as [|c r IH]; [reflexivity|].
  destruct (trimEnd r) as [|c' r'] eqn:E.
  - cbn [trimEnd]. rewrite E.
    destruct (isWhiteSpace c) eqn:Ec; [reflexivity|]. cbn [trimEnd]. now rewrite Ec.
  - rewrite (trimEnd_cons c c' r r' E). now apply trimEnd_cons.
Qed.

(** Trimming what is trimmed changes nothing. *)
Lemma trim_idempotent (s : string) : trim (trim s) = trim s.
Proof.
  unfold trim. destruct (trimStart_head s) as [E|(c & r & E & Hc)]; rewrite E.
  - reflexivity.
  - destruct (trimEnd_head c r Hc) as [r' E']. rewrite E'. cbn [trimStart].
    rewrite Hc, <- E'. apply trimEnd_idempotent.
Qed.

Lemma editName_trimmed (newName : option string) (task : Task) :
  name task <> "" /\ trim (name task) = name task ->
  name (editName newName task) <> ""
  /\ trim (name (editName newName task)) = name (editName newName task).
Proof.
  intros H. unfold editName. destruct newName as [n|]; [|exact H].
  destruct (truthy n && truthy (trim n) && _) eqn:E; [|exact H].
  apply andb_true_iff in E as [E _]. apply andb_true_iff in E as [_ E].
  cbn [set_name name]. split; [now apply truthy_true | apply trim_idempotent].
Qed.

Lemma step_names (s : Store) (a : Action) : names_trimmed s -> names_trimmed (step s a).
Proof.
  unfold names_trimmed. intros H.
  destruct a as [|n d|k|k c|k n d|c|c|c]; cbn [step].
  - cbv -[Z.add Z.lt]. repeat constructor; discriminate.
  - destruct (addTask_cases n d s) as [E|[E|(d' & -> & Hn & Hd)]];
      [now rewrite E | now rewrite E |].
    rewrite (addTask_accepted _ _ _ Hn Hd). cbn [fst tasks].
    apply Forall_app. split; [exact H|]. repeat constructor; cbn [name].
    + exact Hn.
    + apply trim_idempotent.
  - unfold toggleDone. destruct (find_task k (tasks s)) as [t|] eqn:E; [|exact H].
    cbn [tasks]. apply Forall_assign; [|exact H]. cbn [set_completed name].
    apply find_task_In in E as [E _]. rewrite Forall_forall in H. now apply H.
  - unfold removeTask. destruct c; [|exact H]. now apply Forall_filter.
  - unfold editTask. destruct (find_task k (tasks s)) as [t|] eqn:E; [|exact H].
    destruct (editDate d (editName n t)) as [t' al] eqn:E'. cbn [fst tasks].
    apply Forall_assign; [|exact H].
    change t' with (fst (t', al)). rewrite <- E'.
    destruct (editDate_fields d (editName n t)) as (_ & -> & _).
    apply editName_trimmed.
    apply find_task_In in E as [E _]. rewrite Forall_forall in H. now apply H.
  - destruct c.
    + rewrite markAllAsCompleted_confirmed. cbn [tasks]. rewrite Forall_map. exact H.
    + replace (fst (markAllAsCompleted false s)) with s; [exact H|].
      unfold markAllAsCompleted. now destruct (tasks s).
  - destruct c.
    + rewrite clearCompleted_confirmed. cbn [tasks]. now apply Forall_filter.
    + replace (fst (clearCompleted false s)) with s; [exact H|].
      unfold clearCompleted. now destruct (filter (fun task => completed task) (tasks s)).
  - destruct c.
    + unfold clearAll. destruct (tasks s) eqn:E; cbn [fst tasks];
        [rewrite E; constructor | constructor].
    + replace (fst (clearAll false s)) with s; [exact H|].
      unfold clearAll. now destruct (tasks s).
Qed.

End Trimming.

(** X13: in every store of a session every name is not empty and has no
    white space at its ends: [addTask] and [editTask] store the trimmed
    name and refuse a blank one, and nothing else writes a name. *)
Theorem names_are_trimmed (actions : list Action) :
  names_trimmed (run actions seed_store).
Proof.
  assert (H : forall s, names_trimmed s -> names_trimmed (run actions s)).
  { induction actions as [|a actions IH]; intros s Hs; [exact Hs|].
    cbn [run fold_left]. apply IH. now apply step_names. }
  apply H. apply (step_names empty_store Init). constructor.
Qed.

(* ================================================================== *)
(** ** The order of the rendered list *)
(* ================================================================== *)

Section SortedBy.

Variable comparefn : Task -> Task -> option Z.
Variable P : Task -> Prop.

Hypothesis comparefn_opposite :
  forall a b, P a -> P b -> 0 < compared comparefn a b -> compared comparefn b a <= 0.
Hypothesis comparefn_transitive :
  forall a b c, P a -> P b -> P c ->
                compared comparefn a b <= 0 -> compared comparefn b c <= 0 ->
                compared comparefn a c <= 0.

Lemma sort_insert_sorted (x : Task) (l : list Task) :
  P x -> Forall P l ->
  StronglySorted (fun a b => compared comparefn a b <= 0) l ->
  StronglySorted (fun a b => compared comparefn a b <= 0) (sort_insert comparefn x l).
Proof.
  intros Hx Hl Hs. induction Hs as [|y r Hr IH Hy]; cbn [sort_insert].
  - repeat constructor.
  - apply Forall_cons_iff in Hl as [Py Pr].
    change (match comparefn x y with Some v => v | None => 0 end)
      with (compared comparefn x y).
    destruct (0 <? compared comparefn x y) eqn:E.
    + apply Z.ltb_lt in E. constructor; [now apply IH|].
      apply (Permutation_Forall (Permutation_sym (sort_insert_Permutation comparefn x r))).
      constructor; [now apply comparefn_opposite | exact Hy].
    + apply Z.ltb_ge in E. constructor; [now constructor|].
      constructor; [exact E|].
      rewrite Forall_forall in *. intros z Hz.
      apply (comparefn_transitive x y z); auto.
Qed.

Lemma sort_sorted (l : list Task) :
  Forall P l ->
  StronglySorted (fun a b => compared comparefn a b <= 0) (sort comparefn l).
Proof.
  induction 1 as [|x r Hx Hr IH]; cbn [sort]; [constructor|].
  apply sort_insert_sorted; [exact Hx | | exact IH].
  apply (Permutation_Forall (Permutation_sym (sort_Permutation comparefn r))). exact Hr.
Qed.

End SortedBy.

Section Unsorted.

Variable comparefn : Task -> Task -> option Z.

Lemma sort_keeps_order (l : list Task) :
  (forall a b, In a l -> In b l -> compared comparefn a b <= 0) ->
  sort comparefn l = l.
Proof.
  induction l as [|x r IH]; intros H; cbn [sort]; [reflexivity|].
  rewrite IH by (intros a b Ha Hb; apply H; now right).
  destruct r as [|y r]; cbn [sort_insert]; [reflexivity|].
  change (match comparefn x y with Some v => v | None => 0 end)
    with (compared comparefn x y).
  replace (0 <? compared comparefn x y) with false; [reflexivity|].
  symmetry. apply Z.ltb_ge. apply H; cbn; auto.
Qed.

End Unsorted.

Section Order.

Variable localeCompare : string -> string -> Z.
Variable Date_valueOf : string -> option Z.



End Order.



(** X15: when the collation of the host is an order (of two names one is
    not after the other, and not being after is transitive), the list
    rendered with the sort key ["name"] is in that order. *)
Theorem render_by_name_is_ordered
        (localeCompare : string -> string -> Z) (Date_valueOf : string -> option Z)
        (statusFilter searchInput : string) (s : Store) :
  (forall a b, 0 < localeCompare a b -> localeCompare b a <= 0) ->
  (forall a b c, localeCompare a b <= 0 -> localeCompare b c <= 0 -> localeCompare a c <= 0) ->
  StronglySorted (fun a b => localeCompare (name a) (name b) <= 0)
                 (render localeCompare Date_valueOf statusFilter searchInput "name" s).
Proof.
  intros Ho Ht. unfold render.
  apply (sort_sorted (compareTasks localeCompare Date_valueOf "name") (fun _ => True)).
  - intros a b _ _. apply Ho.
  - intros a b c _ _ _. apply Ht.
  - apply Forall_forall. trivial.
Qed.

(** The seed store by name, with a host that orders names by length. *)
Lemma render_by_name_on_seed :
  StronglySorted
    (fun a b => Z.of_nat (String.length (name a)) - Z.of_nat (String.length (name b)) <= 0)
    (render (fun a b => Z.of_nat (String.length a) - Z.of_nat (String.length b))
            (fun _ => None) "all" "" "name" seed_store).
Proof.
  apply (render_by_name_is_ordered
           (fun a b => Z.of_nat (String.length a) - Z.of_nat (String.length b))).
  - intros a b H. lia.
  - intros a b c H1 H2. lia.
Defined.

(** X16: what [render] does at the edges of its two switches.  A status
    filter other than ["all"], ["pending"] and ["completed"] keeps no
    record.  A sort key other than ["name"], ["date"] and ["status"] leaves
    the kept records in the order of the store, and so does the key
    ["date"] when no date can be read.  The key ["status"] puts the kept
    records to visit first and the visited ones after them, each group in
    the order of the store. *)
Theorem render_edges
        (localeCompare : string -> string -> Z) (Date_valueOf : string -> option Z)
        (statusFilter searchInput sortBy : string) (s : Store) :
  let kept_tasks :=
    filter (fun task => matchesStatus statusFilter task
                        && matchesSearch (toLowerCase searchInput) task) (tasks s) in
  (statusFilter <> "all" -> statusFilter <> "pending" -> statusFilter <> "completed" ->
   render localeCompare Date_valueOf statusFilter searchInput sortBy s = [])
  /\ (sortBy <> "name" -> sortBy <> "date" -> sortBy <> "status" ->
      render localeCompare Date_valueOf statusFilter searchInput sortBy s = kept_tasks)
  /\ (Forall (fun t => Date_valueOf (date t) = None) (tasks s) ->
      render localeCompare Date_valueOf statusFilter searchInput "date" s = kept_tasks)
  /\ render localeCompare Date_valueOf statusFilter searchInput "status" s
     = filter (fun t => negb (completed t)) kept_tasks
       ++ filter (fun t => completed t) kept_tasks.
Proof.
  intros kept_tasks. unfold render. fold kept_tasks.
  split; [|split; [|split]].
  - intros H1 H2 H3. replace kept_tasks with (@nil Task); [reflexivity|].
    symmetry. apply filter_none, Forall_forall. intros t _.
    unfold matchesStatus. apply String.eqb_neq in H1, H2, H3. now rewrite H1, H2, H3.
  - intros H1 H2 H3. apply sort_keeps_order. intros a b _ _.
    unfold compared, compareTasks. apply String.eqb_neq in H1, H2, H3.
    rewrite H1, H2, H3. lia.
  - intros H. apply sort_keeps_order. intros a b Ha _.
    assert (Hn : Date_valueOf (date a) = None).
    { rewrite Forall_forall in H. apply H. unfold kept_tasks in Ha.
      now apply filter_In in Ha. }
    unfold compared.
    change (compareTasks localeCompare Date_valueOf "date" a b)
      with (number_sub (Date_valueOf (date a)) (Date_valueOf (date b))).
    rewrite Hn. cbn. lia.
  - apply sort_status.
Qed.

(** The seed store with a filter and a sort key the page does not offer. *)
Lemma render_edges_on_seed :
  render (fun _ _ => 0) (fun _ => None) "done" "" "name" seed_store = []
  /\ render (fun _ _ => 1) (fun _ => Some 0) "all" "" "id" seed_store = tasks seed_store.
Proof.
  split.
  - pose proof (render_edges (fun _ _ => 0) (fun _ => None) "done" "" "name" seed_store)
      as H.
    cbv zeta in H. destruct H as (H & _). apply H; discriminate.
  - pose proof (render_edges (fun _ _ => 1) (fun _ => Some 0) "all" "" "id" seed_store)
      as H.
    cbv zeta in H. destruct H as (_ & H & _). rewrite H by discriminate. reflexivity.
Defined.

(* ================================================================== *)
(** ** The form *)
(* ================================================================== *)

(** X17: the Add button hands the two inputs to [addTask].  When the add
    is refused the inputs keep what was typed and the store is as it was;
    when it is accepted both inputs are emptied, so that a second click
    right after it raises [EmptyName] and adds nothing.  The Enter key in
    the name input does what the button does, and any other key nothing. *)
Theorem addBtn_click_empties_the_form (f : Form) (s : Store) :
  (snd (snd (addBtn_click f s)) <> None ->
   fst (addBtn_click f s) = f /\ fst (snd (addBtn_click f s)) = s)
  /\ (snd (snd (addBtn_click f s)) = None ->
      fst (addBtn_click f s) = mkForm "" ""
      /\ tasks (fst (snd (addBtn_click f s)))
         = tasks s ++ [new_Task (nextId s) (trim (taskInput f)) (dateInput f) false]
      /\ addBtn_click (fst (addBtn_click f s)) (fst (snd (addBtn_click f s)))
         = (mkForm "" "", (fst (snd (addBtn_click f s)), Some EmptyName)))
  /\ taskInput_keypress "Enter" f s = addBtn_click f s
  /\ (forall key, key <> "Enter" -> taskInput_keypress key f s = (f, (s, None))).
Proof.
  assert (Hkeys : taskInput_keypress "Enter" f s = addBtn_click f s
                  /\ (forall key, key <> "Enter" ->
                                  taskInput_keypress key f s = (f, (s, None)))).
  { split; [reflexivity|]. intros key Hk. unfold taskInput_keypress.
    apply String.eqb_neq in Hk. now rewrite Hk. }
  split; [|split; [|exact Hkeys]]; unfold addBtn_click, addTask_form; cbv zeta;
    destruct (addTask_cases (taskInput f) (Some (dateInput f)) s)
      as [E|[E|(d & Ed & Hn & Hd)]].
  - rewrite E. cbn [fst snd]. now split.
  - rewrite E. cbn [fst snd]. now split.
  - injection Ed as <-. rewrite (addTask_accepted _ _ s Hn Hd). cbn [fst snd].
    intros H. now contradiction H.
  - rewrite E. cbn [fst snd]. discriminate.
  - rewrite E. cbn [fst snd]. discriminate.
  - injection Ed as <-. rewrite (addTask_accepted _ _ s Hn Hd). cbn [fst snd tasks].
    intros _. repeat split.
Qed.

(** A museum is typed in and Add is clicked twice. *)
Lemma addBtn_click_twice_on_seed :
  fst (addBtn_click (mkForm " Museo Morandi" "2025-01-01") seed_store) = mkForm "" ""
  /\ snd (snd (addBtn_click (fst (addBtn_click (mkForm " Museo Morandi" "2025-01-01") seed_store))
                            (fst (snd (addBtn_click (mkForm " Museo Morandi" "2025-01-01")
                                                    seed_store)))))
     = Some EmptyName.
Proof.
  destruct (proj1 (proj2 (addBtn_click_empties_the_form
                            (mkForm " Museo Morandi" "2025-01-01") seed_store)) eq_refl)
    as (H1 & _ & H2).
  split; [exact H1|]. now rewrite H2.
Defined.

(* ================================================================== *)
(** ** Further properties of the script with a Map *)
(* ================================================================== *)

Section MapInit.





End MapInit.



(** X19: the loop of [clearCompleted] in the Map script, which deletes
    entries of the map it is walking, leaves exactly the entries whose task
    is to visit, in their order, and the counter; this in a map that has no
    key twice. *)
Theorem map_clearCompleted_deletes_the_completed (s : MapScript.Store) :
  NoDup (MapScript.Map_keys (MapScript.tasksMap s)) ->
  MapScript.tasksMap (fst (MapScript.clearCompleted true s))
  = filter (fun e => negb (completed (snd e))) (MapScript.tasksMap s)
  /\ MapScript.nextId (fst (MapScript.clearCompleted true s)) = MapScript.nextId s
  /\ (snd (MapScript.clearCompleted true s) = Some NothingToClear
      <-> Forall (fun e => completed (snd e) = false) (MapScript.tasksMap s)).
Proof.
  intros Hd. unfold MapScript.clearCompleted. rewrite count_loop_filter.
  destruct (filter (fun task => completed task)
                   (MapScript.Map_values (MapScript.tasksMap s))) as [|t l] eqn:E.
  - assert (Hall : Forall (fun e => completed (snd e) = false) (MapScript.tasksMap s)).
    { apply Forall_forall. intros e He.
      destruct (completed (snd e)) eqn:Ec; [|reflexivity].
      assert (Hin : In (snd e) (filter (fun task => completed task)
                                       (MapScript.Map_values (MapScript.tasksMap s)))).
      { apply filter_In. split; [now apply in_map | exact Ec]. }
      rewrite E in Hin. destruct Hin. }
    cbn. split; [|split; [reflexivity | tauto]].
    symmetry. induction Hall as [|e m He _ IH]; cbn [filter]; [reflexivity|].
    rewrite He. cbn [negb]. f_equal. apply IH.
    + now apply NoDup_cons_iff in Hd.
    + cbn [MapScript.Map_values map filter] in E. rewrite He in E. exact E.
  - replace (0 + Z.of_nat (List.length (t :: l)) =? 0) with false
      by (symmetry; apply Z.eqb_neq; cbn [List.length]; lia).
    cbn [fst snd MapScript.tasksMap MapScript.nextId].
    split; [now apply delete_completed|]. split; [reflexivity|].
    split; [discriminate|]. intros H. exfalso.
    assert (Hin : In t (filter (fun task => completed task)
                               (MapScript.Map_values (MapScript.tasksMap s))))
      by (rewrite E; now left).
    apply filter_In in Hin as [Hin Hc]. apply in_map_iff in Hin as (e & <- & He).
    rewrite Forall_forall in H. rewrite (H e He) in Hc. discriminate Hc.
Qed.

(** The two visited seed museums leave the map. *)
Lemma map_clearCompleted_on_seed :
  MapScript.Map_keys (MapScript.tasksMap (fst (MapScript.clearCompleted true MapScript.seed_store)))
  = [1; 3; 4; 6; 7; 8].
Proof.
  destruct (map_clearCompleted_deletes_the_completed MapScript.seed_store) as (H & _).
  - cbv. repeat constructor; cbn; intuition discriminate.
  - rewrite H. reflexivity.
Defined.

Section MapCounter.

Lemma max_loop_max (l : list Z) (a : Z) :
  fold_left (fun maxId id => if id >? maxId then id else maxId) l a = fold_left Z.max l a.
Proof.
  revert a. induction l as [|k l IH]; intros a; cbn [fold_left]; [reflexivity|].
  rewrite IH. f_equal. destruct (Z.gtb_spec k a); lia.
Qed.

End MapCounter.

(** X20: on a map whose tasks are under their ids and whose ids are
    positive, [updateNextId] of the Map script, which looks for the
    greatest key starting from 0, sets the counter [updateNextId] of the
    array script sets on the same tasks. *)
Theorem map_updateNextId_agrees (s : MapScript.Store) :
  keyed_by_id (MapScript.tasksMap s) ->
  Forall (fun k => 0 < k) (MapScript.Map_keys (MapScript.tasksMap s)) ->
  to_array (MapScript.updateNextId s) = updateNextId (to_array s).
Proof.
  intros Hk Hp. unfold MapScript.updateNextId, updateNextId, to_array.
  rewrite Map_size_zero, max_loop_max. cbn [tasks nextId].
  rewrite (keys_are_ids _ Hk) in *.
  destruct (MapScript.tasksMap s) as [|e m]; [reflexivity|].
  cbn [MapScript.Map_values map fold_left MapScript.tasksMap MapScript.nextId] in *.
  apply Forall_inv in Hp. unfold Math_max. now rewrite Z.max_r by lia.
Qed.

(** The seed map: the counter is 9 in both scripts. *)
Lemma map_updateNextId_on_seed :
  to_array (MapScript.updateNextId MapScript.seed_store)
  = updateNextId (to_array MapScript.seed_store).
Proof.
  apply map_updateNextId_agrees.
  - cbv. repeat constructor.
  - cbv. repeat constructor.
Defined.

(** X21: on a consistent map each handler of the Map script leaves, in the
    order of the entries, the tasks and the counter the same handler of
    the array script leaves on the tasks of the map, it raises the same
    alert, and the map it leaves is consistent. *)
Theorem map_handlers_do_the_same (s : MapScript.Store) (a : Action) :
  consistent s -> a <> Init ->
  to_array (MapScript.step s a) = step (to_array s) a
  /\ MapScript.raised s a = raised (to_array s) a
  /\ consistent (MapScript.step s a).
Proof. apply map_script_simulates. Qed.

(** The first seed museum is given a date the test refuses, in the map as
    in the array. *)
Lemma map_handlers_do_the_same_on_seed :
  MapScript.raised MapScript.seed_store (EditTask 1 None (Some "15/02/2025"))
  = Some InvalidDateFormat
  /\ to_array (MapScript.step MapScript.seed_store (RemoveTask 2 true))
     = step (to_array MapScript.seed_store) (RemoveTask 2 true).
Proof.
  assert (Hc : consistent MapScript.seed_store).
  { cbv. repeat split; repeat constructor; cbn; intuition discriminate. }
  split.
  - destruct (map_handlers_do_the_same MapScript.seed_store
                (EditTask 1 None (Some "15/02/2025")) Hc) as (_ & H & _);
      [discriminate|].
    rewrite H. reflexivity.
  - apply (map_handlers_do_the_same MapScript.seed_store (RemoveTask 2 true) Hc).
    discriminate.
Defined.

(** X22: after any session of the Map script in which [init] ran once,
    at the start, the page shows what the array script shows after the
    same session on the same seed tasks: the same rendered list for every
    filter, search text and sort key, and the same three numbers. *)
Theorem map_session_shows_the_same
        (localeCompare : string -> string -> Z) (Date_valueOf : string -> option Z)
        (actions : list Action) :
  ~ In Init actions ->
  (forall statusFilter searchInput sortBy,
      MapScript.render localeCompare Date_valueOf statusFilter searchInput sortBy
                       (MapScript.run actions MapScript.seed_store)
      = render localeCompare Date_valueOf statusFilter searchInput sortBy
               (run actions (to_array MapScript.seed_store)))
  /\ MapScript.updateStats (MapScript.run actions MapScript.seed_store)
     = updateStats (run actions (to_array MapScript.seed_store)).
Proof.
  intros Hi.
  rewrite <- (map_script_session actions MapScript.seed_store
                (map_script_consistent []) Hi).
  apply map_script_reads.
Qed.

(** A session with an add, a toggle and a clearing of the visited. *)
Lemma map_session_shows_the_same_stats :
  MapScript.updateStats
    (MapScript.run [AddTask "Museo Morandi" (Some "2025-01-01"); ToggleDone 9;
                    ToggleDone 1; ClearCompleted true] MapScript.seed_store)
  = mkStats 5 0 5.
Proof.
  destruct (map_session_shows_the_same (fun _ _ => 0) (fun _ => None)
              [AddTask "Museo Morandi" (Some "2025-01-01"); ToggleDone 9;
               ToggleDone 1; ClearCompleted true]) as [_ H].
  - cbn. intuition discriminate.
  - rewrite H. reflexivity.
Defined.

(** X23: in every session of the Map script, [init] run again or not,
    each task of the map is under its own id, the counter is above every
    key, and the ids of the tasks are pairwise distinct. *)
Theorem map_session_keeps_the_keys (actions : list Action) :
  let s := MapScript.run actions MapScript.seed_store in
  Forall (fun e => fst e = id (snd e)) (MapScript.tasksMap s)
  /\ Forall (fun k => k < MapScript.nextId s) (MapScript.Map_keys (MapScript.tasksMap s))
  /\ NoDup (map id (MapScript.Map_values (MapScript.tasksMap s))).
Proof.
  intros s. destruct (map_script_consistent actions) as (Hk & Hd & Hb).
  fold s in Hk, Hd, Hb. split; [exact Hk|]. split; [exact Hb|].
  now rewrite <- (keys_are_ids _ Hk).
Qed.
